(** * The news agent's collection, enrichment and ranking pipeline

    A shallow embedding of [ai_news_agent.py] (the e-mail digest agent) and of
    [telegram_bot.py] (the chat bot), with the properties of the pipeline
    stated over it.

    Articles are Python dicts and are modelled as finite maps from field
    names to decoded JSON values.  Everything the code obtains from outside
    (HTTP replies, parsed feeds, the scoring service, the clock) is an
    explicit argument. *)

From Stdlib Require Import ZArith QArith Qabs String Permutation Sorted.
From stdpp Require Import gmap strings list fin_maps.

#[local] Open Scope Z_scope.
#[local] Open Scope string_scope.
#[local] Open Scope list_scope.

(* ===================================================================== *)
(** ** Python values and the built-ins the code relies on                 *)
(* ===================================================================== *)

Module Py.

(** A decoded JSON value, as [json.loads] and [response.json()] build it.
    A finite float is the rational it denotes; [NaN] and the two
    infinities, which both decoders accept, are values of their own. *)
#[warnings="-register-all"]
Inductive value :=
| VNull
| VBool (b : bool)
| VInt (z : Z)
| VFloat (q : Q)
| VNaN
| VInf (negative : bool)
| VStr (s : string)
| VList (l : list value)
| VDict (d : gmap string value).

(** A dict with string keys. *)
Abbreviation dict := (gmap string value).

(** The exceptions that the modelled code can meet.  [Unsupported] is not a
    Python exception: it marks the two things this model does not follow,
    the lexicographic order of two lists and a sort among whose keys is a
    NaN. *)
Inductive exn :=
| TypeError
| AttributeError
| ZeroDivisionError
| OverflowError
| Unsupported.

Inductive result (A : Type) :=
| Ok (a : A)
| Raise (e : exn).
Arguments Ok {A} a.
Arguments Raise {A} e.

#[export] Instance result_ret : MRet result := fun A a => Ok a.
#[export] Instance result_bind : MBind result := fun A B f m =>
  match m with
  | Ok a => f a
  | Raise e => Raise e
  end.
#[export] Instance result_fmap : FMap result := fun A B f m =>
  match m with
  | Ok a => Ok (f a)
  | Raise e => Raise e
  end.

(** [d.get(k, default)] *)
Definition get (d : dict) (k : string) (default : value) : value :=
  match d !! k with
  | Some v => v
  | None => default
  end.

(** The finite number a value stands for in arithmetic and comparisons;
    [bool] is a subclass of [int]. *)
Definition num (v : value) : option Q :=
  match v with
  | VBool b => Some (inject_Z (if b then 1 else 0))
  | VInt z => Some (inject_Z z)
  | VFloat q => Some q
  | _ => None
  end.

Definition Qlt_bool (x y : Q) : bool := negb (Qle_bool y x).

(** A number as comparisons see it: finite, infinite or not a number. *)
Inductive real :=
| Finite (q : Q)
| Infinite (negative : bool)
| NotANumber.

Definition real_of (v : value) : option real :=
  match v with
  | VNaN => Some NotANumber
  | VInf negative => Some (Infinite negative)
  | _ => Finite <$> num v
  end.

(** [x < y] on numbers: integers and floats compare by value, every
    comparison with a NaN is false. *)
Definition real_lt (x y : real) : bool :=
  match x, y with
  | NotANumber, _ | _, NotANumber => false
  | Finite p, Finite q => Qlt_bool p q
  | Finite _, Infinite negative => negb negative
  | Infinite negative, Finite _ => negative
  | Infinite negative, Infinite negative' => negative && negb negative'
  end.

(** [x >= y] on numbers. *)
Definition real_ge (x y : real) : bool :=
  match x, y with
  | NotANumber, _ | _, NotANumber => false
  | Finite p, Finite q => Qle_bool q p
  | Finite _, Infinite negative => negative
  | Infinite negative, Finite _ => negb negative
  | Infinite negative, Infinite negative' => negb negative || negative'
  end.

(** [a < b]: numbers by value, strings lexicographically; every other
    pairing raises [TypeError], apart from two lists. *)
Definition lt (a b : value) : result bool :=
  match real_of a, real_of b with
  | Some x, Some y => Ok (real_lt x y)
  | _, _ =>
      match a, b with
      | VStr s, VStr t => Ok (String.ltb s t)
      | VList _, VList _ => Raise Unsupported
      | _, _ => Raise TypeError
      end
  end.

(** [a >= b] *)
Definition ge (a b : value) : result bool :=
  match real_of a, real_of b with
  | Some x, Some y => Ok (real_ge x y)
  | _, _ =>
      match a, b with
      | VStr s, VStr t => Ok (String.leb t s)
      | VList _, VList _ => Raise Unsupported
      | _, _ => Raise TypeError
      end
  end.

(** The integer an [int] or [bool] holds. *)
Definition int (v : value) : option Z :=
  match v with
  | VBool b => Some (if b then 1 else 0)
  | VInt z => Some z
  | _ => None
  end.

(** The least magnitude that rounds to a float beyond the largest one:
    halfway between the largest float and [2 ^ 1024]. *)
Definition float_limit : Z := 2 ^ 1024 - 2 ^ 970.

Definition too_large (q : Q) : bool := Qle_bool (inject_Z float_limit) (Qabs q).

(** [float(v)] as arithmetic applies it to an operand: an integer too
    large for a float raises [OverflowError]. *)
Definition to_float (v : value) : result real :=
  match int v, real_of v with
  | Some z, _ =>
      if too_large (inject_Z z) then Raise OverflowError
      else Ok (Finite (inject_Z z))
  | None, Some x => Ok x
  | None, None => Raise TypeError
  end.

(** A float result as a value: a magnitude beyond the floats is an
    infinity.  The rounding of a finite result is not modelled. *)
Definition of_float (x : real) : value :=
  match x with
  | Finite q =>
      if too_large q then VInf (negb (Qle_bool 0 q)) else VFloat q
  | Infinite negative => VInf negative
  | NotANumber => VNaN
  end.

(** [x + y] on floats. *)
Definition real_add (x y : real) : real :=
  match x, y with
  | NotANumber, _ | _, NotANumber => NotANumber
  | Finite p, Finite q => Finite (p + q)
  | Finite _, Infinite negative | Infinite negative, Finite _ => Infinite negative
  | Infinite negative, Infinite negative' =>
      if Bool.eqb negative negative' then Infinite negative else NotANumber
  end.

(** [a + b] on numbers, as [sum] uses it from the start value [0]: two
    integers give an integer, exactly; otherwise both operands become
    floats and the result is a float. *)
Definition add (a b : value) : result value :=
  match int a, int b with
  | Some x, Some y => Ok (VInt (x + y))
  | _, _ =>
      match real_of a, real_of b with
      | Some _, Some _ =>
          x ← to_float a;
          y ← to_float b;
          Ok (of_float (real_add x y))
      | _, _ => Raise TypeError
      end
  end.

(** [sum(vs)] *)
Definition sum (vs : list value) : result value :=
  foldl (fun acc v => acc ≫= fun s => add s v) (Ok (VInt 0)) vs.

(** [a / n] for a number [a] and a length [n].  The quotient of two
    integers is rounded from the exact one and raises [OverflowError]
    when it is too large for a float; a float is divided as a float. *)
Definition truediv (a : value) (n : nat) : result value :=
  match int a, real_of a with
  | Some z, _ =>
      if decide (n = 0%nat) then Raise ZeroDivisionError
      else
        let q := (inject_Z z / inject_Z (Z.of_nat n))%Q in
        if too_large q then Raise OverflowError else Ok (VFloat q)
  | None, Some x =>
      if decide (n = 0%nat) then Raise ZeroDivisionError
      else
        Ok (match x with
            | Finite q => VFloat (q / inject_Z (Z.of_nat n))
            | Infinite negative => VInf negative
            | NotANumber => VNaN
            end)
  | None, None => Raise TypeError
  end.

(** [iter(v)]: the items a [for] loop over [v] visits.  A string yields its
    characters and a dict its keys. *)
Fixpoint chars (s : string) : list value :=
  match s with
  | EmptyString => []
  | String c s' => VStr (String c EmptyString) :: chars s'
  end.

Definition iter (v : value) : result (list value) :=
  match v with
  | VList l => Ok l
  | VStr s => Ok (chars s)
  | VDict d => Ok (VStr <$> (map_to_list d).*1)
  | _ => Raise TypeError
  end.

(** The comparison a sort makes.  Under a NaN key, which is below and
    above nothing, the outcome of a sort depends on which pairs the
    algorithm happens to compare; the model does not follow it. *)
Definition sort_lt (a b : value) : result bool :=
  match a, b with
  | VNaN, _ | _, VNaN => Raise Unsupported
  | _, _ => lt a b
  end.

(** [l.sort(key=key, reverse=True)] and [sorted(l, key=key, reverse=True)].
    Python's sort is stable, also under [reverse=True]: items come out in
    descending key order and items of equal key keep their order.  It only
    ever asks [<] of two keys.  The model is the insertion sort with these
    two properties; a comparison that raises makes the sort raise. *)
Section Sort.
Context {A : Type} (key : A → value).

(** Put [x], which stood before every item of [l], into the sorted [l]:
    it passes the items whose key is strictly above its own. *)
Fixpoint insert_desc (x : A) (l : list A) : result (list A) :=
  match l with
  | [] => Ok [x]
  | y :: l' =>
      below ← sort_lt (key x) (key y);
      if below : bool then cons y <$> insert_desc x l'
      else Ok (x :: y :: l')
  end.

Fixpoint sort_desc (l : list A) : result (list A) :=
  match l with
  | [] => Ok []
  | x :: l' => sort_desc l' ≫= insert_desc x
  end.
End Sort.

End Py.

(* ===================================================================== *)
(** ** What both programs receive from the network                        *)
(* ===================================================================== *)

Module Net.

(** The outcome of [session.get(url)]: it raises (network error, timeout)
    or answers with a status and a text. *)
Inductive http (B : Type) :=
| GetRaises
| Response (status : Z) (text : B).
Arguments GetRaises {B}.
Arguments Response {B} status text.

(** The scoring service's answer to one [requests.post], down to the text
    it generated. *)
Inductive gemini_body (T : Type) :=
| BodyNotJson                   (* response.json() raises *)
| NoCandidates                  (* no 'candidates' key, or an empty list *)
| NoText                        (* reaching candidates[0]...['text'] raises *)
| Text (generated_text : T).
Arguments BodyNotJson {T}.
Arguments NoCandidates {T}.
Arguments NoText {T}.
Arguments Text {T} generated_text.

Inductive gemini_reply (T : Type) :=
| PostRaises
| Answer (status_code : Z) (body : gemini_body T).
Arguments PostRaises {T}.
Arguments Answer {T} status_code body.

End Net.

(* ===================================================================== *)
(** ** [ai_news_agent.py]: the e-mail digest agent                        *)
(* ===================================================================== *)

Module Agent.
Import Py Net.

(** *** What the agent receives from outside *)

(** One entry of a parsed feed.  [BadEntry] is an entry whose handling
    raises inside the per-entry [try] (a date tuple [datetime] rejects, a
    summary BeautifulSoup rejects).  Dates and clock readings are in
    microseconds;
    [summary] and [description] hold the text BeautifulSoup extracts, with
    whitespace collapsed by the regular expression. *)
Inductive rss_entry :=
| BadEntry
| Entry (published_parsed updated_parsed : option Z)
        (title link summary description : option string).

(** The text of a feed, by what becomes of it: empty, rejected by
    [feedparser.parse], or parsed into entries. *)
Inductive rss_text :=
| RssEmpty
| RssBroken
| RssFeed (entries : list rss_entry).

(** One child of a Reddit listing.  [BadPost] has no ['data'] or no usable
    ['created_utc']; [title] and [permalink] are [None] when the key is
    missing. *)
Inductive reddit_post :=
| BadPost
| Post (created_utc : Z) (score : option Z)
       (title permalink selftext : option string).

(** The text of a listing: empty, rejected by [json.loads] or without
    [data.children], or a listing. *)
Inductive reddit_text :=
| RedditEmpty
| RedditBroken
| RedditListing (children : list reddit_post).

(** The generated text, by what [json.loads] makes of it once the code
    fences are removed. *)
Inductive generated :=
| NotJson                       (* json.loads raises *)
| Json (analysis : value).

(** The outside world of one run: the feeds and listings by URL, the clock,
    and the scoring service's answer to the call made for the batch that
    starts at a given index. *)
Record world := {
  rss : string → http rss_text;
  reddit : string → http reddit_text;
  now : Z;
  gemini : nat → gemini_reply generated
}.

(** *** The agent *)

Record agent := {
  website_sources : list (string * string);
  reddit_sources : list string;
  collected_articles : list dict
}.

Definition set_collected (a : agent) (l : list dict) : agent :=
  {| website_sources := website_sources a;
     reddit_sources := reddit_sources a;
     collected_articles := l |}.

Definition day : Z := 86400 * 1000000.

(** [fetch_url]: the text of a 200 answer, [None] otherwise. *)
Definition fetch_url {B} (net : string → http B) (url : string) : option B :=
  match net url with
  | Response status text => if decide (status = 200) then Some text else None
  | GetRaises => None
  end.

(** [description[:500] + "..."] when longer than 500. *)
Definition truncate (description : string) : string :=
  if decide (500 < String.length description)%nat
  then substring 0 500 description +:+ "..."
  else description.

(** The body of the loop over [feed.entries[:10]]: the article an entry
    yields, if any.  The ISO text of a date is represented by the date. *)
Definition rss_article (w : world) (source_name : string) (e : rss_entry)
  : option dict :=
  match e with
  | BadEntry => None
  | Entry published_parsed updated_parsed title link summary description =>
      let pub_date :=
        match published_parsed with
        | Some t => Some t
        | None => updated_parsed
        end in
      let cutoff_time := now w - day in
      if match pub_date with
         | Some t => bool_decide (t < cutoff_time)
         | None => false
         end
      then None
      else
        let description :=
          match summary with
          | Some s => s
          | None => default "" description
          end in
        Some (list_to_map
          [("title", VStr (default "No title" title));
           ("url", VStr (default "" link));
           ("source", VStr source_name);
           ("description", VStr (truncate description));
           ("published", VInt (default (now w) pub_date));
           ("type", VStr "rss")])
  end.

(** [process_rss_feed]: the articles of one feed, appended to
    [collected_articles] and returned. *)
Definition process_rss_feed (w : world) (url source_name : string) (a : agent)
  : agent * list dict :=
  match fetch_url (rss w) url with
  | None => (a, [])
  | Some RssEmpty => (a, [])
  | Some RssBroken => (a, [])
  | Some (RssFeed entries) =>
      let articles := omap (rss_article w source_name) (take 10 entries) in
      (set_collected a (collected_articles a ++ articles), articles)
  end.

(** [collect_rss_feeds].  [asyncio.gather] runs one task per source; a task
    touches [collected_articles] once, in its final [extend], so a run is
    the sequence of these extends.  They are taken in source order here; any
    other completion order is this function on the permuted source list. *)
Definition collect_rss_feeds (w : world) (a : agent) : agent :=
  foldl (fun a '(url, source_name) => (process_rss_feed w url source_name a).1)
        a (website_sources a).

(** The loop over [data['data']['children']]: the articles appended, up to
    the first post that raises. *)
Fixpoint reddit_articles (w : world) (subreddit : string)
    (children : list reddit_post) : list dict :=
  match children with
  | [] => []
  | BadPost :: _ => []
  | Post created_utc score title permalink selftext :: rest =>
      if bool_decide (created_utc < now w - day)
      then reddit_articles w subreddit rest
      else if bool_decide (default 0 score < 50)
      then reddit_articles w subreddit rest
      else
        match title, permalink with
        | Some title, Some permalink =>
            list_to_map
              [("title", VStr title);
               ("url", VStr ("https://reddit.com" +:+ permalink));
               ("source", VStr ("r/" +:+ subreddit));
               ("description",
                  VStr (match selftext with
                        | Some (String c s) => substring 0 500 (String c s) +:+ "..."
                        | _ => ""
                        end));
               ("published", VInt created_utc);
               ("score", VInt (default 0 score));
               ("type", VStr "reddit")]
            :: reddit_articles w subreddit rest
        | _, _ => []
        end
  end.

(** One round of the loop of [collect_reddit_posts]. *)
Definition collect_subreddit (w : world) (a : agent) (subreddit : string)
  : agent :=
  let url := "https://www.reddit.com/r/" +:+ subreddit +:+ "/hot.json?limit=5" in
  match fetch_url (reddit w) url with
  | Some (RedditListing children) =>
      set_collected a (collected_articles a ++ reddit_articles w subreddit children)
  | _ => a
  end.

Definition collect_reddit_posts (w : world) (a : agent) : agent :=
  foldl (collect_subreddit w) a (reddit_sources a).

(** Step 1 of [run_daily_digest]. *)
Definition collect (w : world) (a : agent) : agent :=
  collect_reddit_posts w (collect_rss_feeds w a).

(** Step 1 when the fetches of the feeds complete in the order
    [completed], a rearrangement of [website_sources]: each task extends
    [collected_articles] as its own fetch completes, and the loop over the
    subreddits follows the [gather]. *)
Definition collect_as (w : world) (completed : list (string * string))
    (a : agent) : agent :=
  collect_reddit_posts w
    (foldl (fun a '(url, source_name) => (process_rss_feed w url source_name a).1)
       a completed).

(** The pair the specification deduplicates by. *)
Definition dedup_key (article : dict) : option value * option value :=
  (article !! "source", article !! "url").

(** The agent as [__init__] leaves it, with the given sources. *)
Definition init (sources : list (string * string)) (subreddits : list string)
  : agent :=
  {| website_sources := sources;
     reddit_sources := subreddits;
     collected_articles := [] |}.

(** What one source contributes: the list [process_rss_feed] returns for a
    feed, and the articles one round of [collect_reddit_posts] appends. *)
Definition feed_result (w : world) (source : string * string) : list dict :=
  (process_rss_feed w source.1 source.2 (init [] [])).2.

Definition listing_result (w : world) (subreddit : string) : list dict :=
  collected_articles (collect_subreddit w (init [] []) subreddit).

(** *** Enrichment *)

(** The prompt reads [article['title']], [article['source']] and
    [article['description'][:300]] of every article of the batch; a missing
    key or a description that cannot be sliced raises inside the [try]. *)
Definition prompt_builds (article : dict) : bool :=
  bool_decide (is_Some (article !! "title")) &&
  bool_decide (is_Some (article !! "source")) &&
  match article !! "description" with
  | Some (VStr _) | Some (VList _) => true
  | _ => false
  end.

(** [analyze_with_gemini]: what the call returns for a batch, given the
    service's answer.  Every exception ends in [return []]; an answer with
    status 200 and no candidates leaves both [if]s and returns [None]. *)
Definition analyze_with_gemini (reply : gemini_reply generated)
    (articles_batch : list dict)
  : value :=
  if forallb prompt_builds articles_batch then
    match reply with
    | PostRaises => VList []
    | Answer status_code body =>
        if decide (status_code = 200) then
          match body with
          | BodyNotJson => VList []
          | NoCandidates => VNull
          | NoText => VList []
          | Text NotJson => VList []
          | Text (Json (VDict analysis)) => get analysis "articles" (VList [])
          | Text (Json _) => VList []
          end
        else VList []
    end
  else VList [].

(** The dict that [update] receives. *)
Definition analysis_fields (analysis : dict) : dict :=
  list_to_map
    [("relevance_score", get analysis "relevance_score" (VInt 50));
     ("category", get analysis "category" (VStr "Other"));
     ("key_insights", get analysis "key_insights" (VList []));
     ("importance_level", get analysis "importance_level" (VStr "medium"));
     ("ai_summary", get analysis "summary" (VStr ""))].

(** [article.update(fields)]: the keys of [fields] are set, the others
    stay. *)
Definition update (fields article : dict) : dict := fields ∪ article.

(** [for j, analysis in enumerate(batch_analysis)], from position [j] on.
    An item that is not a dict has no [get]. *)
Fixpoint match_analysis (i len_batch j : nat) (batch_analysis : list value)
    (articles : list dict) : result (list dict) :=
  match batch_analysis with
  | [] => Ok articles
  | analysis :: rest =>
      if decide (j < len_batch)%nat then
        let article_index := (i + j)%nat in
        if decide (article_index < length articles)%nat then
          match analysis with
          | VDict analysis =>
              match_analysis i len_batch (S j) rest
                (alter (update (analysis_fields analysis)) article_index articles)
          | _ => Raise AttributeError
          end
        else match_analysis i len_batch (S j) rest articles
      else match_analysis i len_batch (S j) rest articles
  end.

Definition batch_size : nat := 5.

(** One round of [for i in range(0, len(collected_articles), batch_size)]. *)
Definition analyze_batch (w : world) (articles : list dict) (i : nat)
  : result (list dict) :=
  let batch := take batch_size (drop i articles) in
  let batch_analysis := analyze_with_gemini (gemini w i) batch in
  items ← iter batch_analysis;
  match_analysis i (length batch) 0 items articles.

(** [range(0, n, batch_size)] *)
Definition batch_starts (n : nat) : list nat :=
  (fun k => k * batch_size)%nat <$> seq 0 ((n + batch_size - 1) / batch_size).

Fixpoint analyze_batches (w : world) (starts : list nat) (articles : list dict)
  : result (list dict) :=
  match starts with
  | [] => Ok articles
  | i :: starts' => analyze_batch w articles i ≫= analyze_batches w starts'
  end.

(** [x.get('relevance_score', 0)], the key of every sort. *)
Definition relevance (article : dict) : value :=
  get article "relevance_score" (VInt 0).

(** [analyze_articles].  The average is only printed, but it is computed:
    the sum and the division can raise. *)
Definition analyze_articles (w : world) (a : agent) : result agent :=
  match collected_articles a with
  | [] => Ok a
  | _ =>
      analysed ← analyze_batches w (batch_starts (length (collected_articles a)))
                   (collected_articles a);
      sorted ← sort_desc relevance analysed;
      total ← sum (relevance <$> sorted);
      _ ← truediv total (length sorted);
      Ok (set_collected a sorted)
  end.

(** *** Digest selection *)

(** [[a for a in articles if keep(a)]] with a test that can raise. *)
Fixpoint comprehension (keep : dict → result bool) (articles : list dict)
  : result (list dict) :=
  match articles with
  | [] => Ok []
  | a :: rest =>
      k ← keep a;
      kept ← comprehension keep rest;
      Ok (if k : bool then a :: kept else kept)
  end.

(** The articles [generate_email_digest] renders: [None] when nothing was
    collected, otherwise [top_articles]. *)
Definition top_articles (a : agent) : result (option (list dict)) :=
  match collected_articles a with
  | [] => Ok None
  | _ =>
      kept ← comprehension (fun a => ge (relevance a) (VInt 60))
               (collected_articles a);
      let top_articles := take 15 kept in
      Ok (Some (match top_articles with
                | [] => take 10 (collected_articles a)
                | _ => top_articles
                end))
  end.

End Agent.

(* ===================================================================== *)
(** ** [telegram_bot.py]: the chat bot                                    *)
(* ===================================================================== *)

Module Bot.
Import Py Net.

(** One entry of a parsed feed.  [BadEntry] is an entry whose handling
    raises (a summary that cannot be sliced); there is no per-entry [try]
    here, so it ends the feed. *)
Inductive feed_entry :=
| BadEntry
| Entry (title link summary published : option string).

Inductive feed_text :=
| FeedBroken                    (* feedparser.parse raises *)
| Feed (entries : list feed_entry).

(** The generated text once decoded.  [JsonOther] is a JSON value that
    [dict.update] rejects (null, a number, a boolean, a non-empty string).
    JSON arrays and the empty string, which [update] reads as a sequence of
    key/value pairs, are left out of the model. *)
Inductive generated :=
| NotJson
| JsonObject (ai_analysis : dict)
| JsonOther.

(** The feeds by URL, and the scoring service's answer to the call made
    for the article at a given position of the list being analysed. *)
Record world := {
  feeds : string → http feed_text;
  gemini : nat → gemini_reply generated
}.

(** The bot, together with the article dicts that exist.  An article is a
    mutable object: lists hold references to it, and a reference is the
    index of the dict in [objects]. *)
Record bot := {
  objects : list dict;
  gemini_api_key : bool;
  news_sources : list (string * string);
  articles_cache : list nat;
  last_update : option Z
}.

Definition set_objects (s : bot) (o : list dict) : bot :=
  {| objects := o;
     gemini_api_key := gemini_api_key s;
     news_sources := news_sources s;
     articles_cache := articles_cache s;
     last_update := last_update s |}.

Definition set_cache (s : bot) (cache : list nat) (t : Z) : bot :=
  {| objects := objects s;
     gemini_api_key := gemini_api_key s;
     news_sources := news_sources s;
     articles_cache := cache;
     last_update := Some t |}.

(** *** Enrichment *)

(** The values set when no API key is configured. *)
Definition no_key_values (article : dict) : dict :=
  <["category" := VStr "General"]> (<["relevance_score" := VFloat 7.5]> article).

(** The fallback values of the [else] branch and of the [except] handler. *)
Definition fallback_values (article : dict) : dict :=
  <["sentiment" := VStr "neutral"]>
    (<["key_points" := VList []]>
       (<["category" := VStr "General"]>
          (<["relevance_score" := VFloat 7]> article))).

(** The prompt reads [article['title']], [article['summary'][:200]] and
    [article['source']]. *)
Definition prompt_builds (article : dict) : bool :=
  bool_decide (is_Some (article !! "title")) &&
  match article !! "summary" with
  | Some (VStr _) | Some (VList _) => true
  | _ => false
  end &&
  bool_decide (is_Some (article !! "source")).

(** The body of the loop of [analyze_articles_with_ai], as the change it
    makes to the article's dict. *)
Definition analyze_article (reply : gemini_reply generated) (article : dict)
  : dict :=
  if prompt_builds article then
    match reply with
    | PostRaises => fallback_values article
    | Answer status_code body =>
        if decide (status_code = 200) then
          match body with
          | Text (JsonObject ai_analysis) => ai_analysis ∪ article
          | _ => fallback_values article
          end
        else fallback_values article
    end
  else fallback_values article.

(** The loop with a key: article number [n] onwards; [analyzed] collects
    the references. *)
Fixpoint analyze_loop (w : world) (n : nat) (articles analyzed : list nat)
    (objects : list dict) : list dict * list nat :=
  match articles with
  | [] => (objects, analyzed)
  | article :: rest =>
      analyze_loop w (S n) rest (analyzed ++ [article])
        (alter (analyze_article (gemini w n)) article objects)
  end.

(** [analyze_articles_with_ai]: the objects afterwards and the list
    returned. *)
Definition analyze_articles_with_ai (w : world) (articles : list nat) (s : bot)
  : bot * list nat :=
  if gemini_api_key s then
    let '(objects, analyzed) := analyze_loop w 0 articles [] (objects s) in
    (set_objects s objects, analyzed)
  else
    (set_objects s (foldl (fun o article => alter no_key_values article o)
                      (objects s) articles),
     articles).

(** *** Collection and the cache *)

(** The dicts built from [feed.entries[:5]], up to the first entry that
    raises.  [t] is the clock, whose ISO text is represented by itself. *)
Fixpoint feed_articles (t : Z) (source : string) (entries : list feed_entry)
  : list dict :=
  match entries with
  | [] => []
  | BadEntry :: _ => []
  | Entry title link summary published :: rest =>
      list_to_map
        [("title", VStr (default "No title" title));
         ("link", VStr (default "" link));
         ("summary", VStr (substring 0 300 (default "" summary) +:+ "..."));
         ("published", VStr (default "" published));
         ("source", VStr source);
         ("timestamp", VInt t)]
      :: feed_articles t source rest
  end.

Definition source_articles (w : world) (t : Z) (src : string * string)
  : list dict :=
  match feeds w src.1 with
  | Response status (Feed entries) =>
      if decide (status = 200) then feed_articles t src.2 (take 5 entries)
      else []
  | _ => []
  end.

(** [collect_news] at clock reading [t]: the new dicts are allocated after
    the existing ones, analysed, and become the cache. *)
Definition collect_news (w : world) (t : Z) (s : bot) : bot * list nat :=
  let created := mjoin (source_articles w t <$> news_sources s) in
  let articles := seq (length (objects s)) (length created) in
  let '(s', analyzed_articles) :=
    analyze_articles_with_ai w articles (set_objects s (objects s ++ created)) in
  (set_cache s' analyzed_articles t, analyzed_articles).

(** [timedelta.seconds] of a difference of two clock readings: the seconds
    within the day, after the whole days are taken out. *)
Definition seconds (delta : Z) : Z := (delta `div` 1000000) `mod` 86400.

(** The test that opens [latest_news] and [handle_latest_callback]. *)
Definition must_update (now : Z) (s : bot) : bool :=
  match articles_cache s, last_update s with
  | [], _ => true
  | _, None => true
  | _, Some last_update => bool_decide (1800 < seconds (now - last_update))
  end.

(** Lines 173 to 176: the cache after the test. *)
Definition refresh (w : world) (now : Z) (s : bot) : bot :=
  if must_update now s then (collect_news w now s).1 else s.

(** [x.get('relevance_score', 0)] of the article a reference points to. *)
Definition relevance (s : bot) (article : nat) : value :=
  get (default ∅ (objects s !! article)) "relevance_score" (VInt 0).

(** [latest_news], up to the choice of [top_articles]: [None] stands for
    the reply that no news could be fetched. *)
Definition latest_news (w : world) (now : Z) (s : bot)
  : bot * result (option (list nat)) :=
  let s := refresh w now s in
  (s, match articles_cache s with
      | [] => Ok None
      | cache => Some <$> (take 5 <$> sort_desc (relevance s) cache)
      end).

End Bot.

(* ===================================================================== *)
(** ** Vocabulary of the statements                                       *)
(* ===================================================================== *)

Module Props.
Import Py Net.

(** A value that is a finite number: an integer, a boolean or a finite
    float. *)
Definition numeric (v : value) : Prop := is_Some (num v).

(** The number a sort key stands for. *)
Definition rank (v : value) : Q := default 0%Q (num v).

(** A value that is a number, a NaN or an infinity. *)
Definition is_number (v : value) : Prop := is_Some (real_of v).

(** [x] may stand in front of [y] in a list sorted by descending [key]. *)
Definition above {A : Type} (key : A → value) (x y : A) : Prop :=
  (rank (key y) <= rank (key x))%Q.

#[export] Instance Qeq_decision (x y : Q) : Decision (x == y)%Q := Qeq_dec x y.

(** What the bot's enrichment makes of the dict of article number [n]. *)
Definition enriched (w : Bot.world) (s : Bot.bot) (n : nat) (article : dict)
  : dict :=
  if Bot.gemini_api_key s then Bot.analyze_article (Bot.gemini w n) article
  else Bot.no_key_values article.

(** A stage that is a pure transform leaves the dicts of its input
    articles as they were. *)
Definition left_unchanged (articles : list nat) (before after : Bot.bot) : Prop :=
  ∀ article, article ∈ articles →
    Bot.objects after !! article = Bot.objects before !! article.

(** The time to live of the bot's cache, in microseconds. *)
Definition ttl : Z := 1800 * 1000000.

(** A feed adapter fails: the request raises (network error, timeout), the
    status is not 200, or the document is rejected by the parser. *)
Definition feed_fails (reply : http Agent.rss_text) : Prop :=
  match reply with
  | GetRaises => True
  | Response status text => status ≠ 200 ∨ text = Agent.RssBroken
  end.

(** The same for a Reddit listing. *)
Definition listing_fails (reply : http Agent.reddit_text) : Prop :=
  match reply with
  | GetRaises => True
  | Response status text => status ≠ 200 ∨ text = Agent.RedditBroken
  end.

(** The display names under which the agent's sources file articles. *)
Definition source_names (a : Agent.agent) : list string :=
  (Agent.website_sources a).*2 ++
  ((fun subreddit => "r/" +:+ subreddit) <$> Agent.reddit_sources a).

(** The agent with other sources. *)
Definition with_sources (a : Agent.agent) (sources : list (string * string))
    (subreddits : list string) : Agent.agent :=
  {| Agent.website_sources := sources;
     Agent.reddit_sources := subreddits;
     Agent.collected_articles := Agent.collected_articles a |}.

#[export] Instance Qle_decision (x y : Q) : Decision (x <= y)%Q :=
  match Qlt_le_dec y x with
  | left Hlt => right (Qlt_not_le _ _ Hlt)
  | right Hle => left Hle
  end.

(** The scoring call made for a batch fails: the request raises, the
    status is not 200, or the body or the text generated is not JSON. *)
Definition scoring_fails (reply : gemini_reply Agent.generated) : Prop :=
  match reply with
  | PostRaises => True
  | Answer status_code body =>
      status_code ≠ 200 ∨ body = BodyNotJson ∨ body = Text Agent.NotJson
  end.

(** The fallback values the specification names: category [Other], some
    relevance score, neutral sentiment. *)
Definition carries_fallback (article : dict) : Prop :=
  article !! "category" = Some (VStr "Other") ∧
  is_Some (article !! "relevance_score") ∧
  article !! "sentiment" = Some (VStr "neutral").

(** The declared range of the agent's relevance score. *)
Definition in_declared_range (v : value) : Prop :=
  ∃ q, num v = Some q ∧ (0 <= q)%Q ∧ (q <= 100)%Q.

(** The closed set of categories of the specification. *)
Definition categories : list string :=
  ["AI/ML"; "Technology"; "Business"; "Science"; "Startups"; "Programming";
   "Other"].

Definition in_categories (v : value) : Prop :=
  ∃ c, v = VStr c ∧ c ∈ categories.

(** The date stored under ['published']. *)
Definition published_at (article : dict) : Z :=
  match article !! "published" with
  | Some (VInt t) => t
  | _ => 0
  end.

(** The tie-break of the specification: of two items of equal score, the
    one published later comes first. *)
Definition ties_by_published_desc (ranked : list dict) : Prop :=
  ∀ i j x y, (i < j)%nat → ranked !! i = Some x → ranked !! j = Some y →
    (rank (Agent.relevance x) == rank (Agent.relevance y))%Q →
    (published_at y ≤ published_at x)%Z.

(** The item the service returned for the article at position [k]: the
    item at the article's place within its batch, when the call made for
    that batch returned a list. *)
Definition returned_item (w : Agent.world) (articles : list dict) (k : nat)
  : option value :=
  let i := (k / Agent.batch_size * Agent.batch_size)%nat in
  match Agent.analyze_with_gemini (Agent.gemini w i)
          (take Agent.batch_size (drop i articles)) with
  | VList items => items !! (k - i)%nat
  | _ => None
  end.

(** An article after its item, if any, has been merged into it. *)
Definition enriched_with (item : option value) (article : dict) : dict :=
  match item with
  | Some (VDict analysis) => Agent.update (Agent.analysis_fields analysis) article
  | _ => article
  end.

(** Every scoring call of a run over [articles] returns a list of objects
    (the empty list, when the call fails). *)
Definition well_answered (w : Agent.world) (articles : list dict) : Prop :=
  ∀ i, i ∈ Agent.batch_starts (length articles) →
    ∃ items,
      Agent.analyze_with_gemini (Agent.gemini w i)
        (take Agent.batch_size (drop i articles)) = VList items ∧
      Forall (fun v => ∃ d, v = VDict d) items.

(** The fields, and their kinds, of an article as collection builds it: a
    description of at most 503 characters, and no field of the analysis. *)
Definition collected_shape (article : dict) : Prop :=
  (∃ title, article !! "title" = Some (VStr title)) ∧
  (∃ url, article !! "url" = Some (VStr url)) ∧
  (∃ source, article !! "source" = Some (VStr source)) ∧
  (∃ description, article !! "description" = Some (VStr description) ∧
     (String.length description ≤ 503)%nat) ∧
  (∃ published, article !! "published" = Some (VInt published)) ∧
  (article !! "type" = Some (VStr "rss") ∨
   article !! "type" = Some (VStr "reddit")) ∧
  article !! "relevance_score" = None ∧
  article !! "category" = None.

(** Not older than one day on the clock of the run, and, for a Reddit
    post, with a score of at least 50. *)
Definition recent_and_popular (w : Agent.world) (article : dict) : Prop :=
  (∃ published, article !! "published" = Some (VInt published) ∧
     (Agent.now w - Agent.day ≤ published)%Z) ∧
  (article !! "type" = Some (VStr "reddit") →
   ∃ score, article !! "score" = Some (VInt score) ∧ (50 ≤ score)%Z).

(** The fields collection writes, as an article holds them. *)
Definition raw (article : dict) : list (option value) :=
  (fun k => article !! k) <$>
    ["title"; "url"; "source"; "description"; "published"; "type"; "score"].

End Props.

(* ===================================================================== *)
(** ** Concrete runs                                                      *)
(* ===================================================================== *)

Module Examples.
Import Py Net Agent.

Definition feed_url : string := "https://a.example/feed".

Definition older : rss_entry :=
  Entry (Some 100) None (Some "Older") (Some "https://a.example/1")
        (Some "first") None.

Definition newer : rss_entry :=
  Entry (Some 200) None (Some "Newer") (Some "https://a.example/2")
        (Some "second") None.

(** One item of the service's answer. *)
Definition item (relevance_score : value) (category : string) : value :=
  VDict (list_to_map [("relevance_score", relevance_score);
                      ("category", VStr category)]).

(** An answer with status 200 whose text decodes to the given items. *)
Definition answer (items : list value) : gemini_reply generated :=
  Answer 200 (Text (Json (VDict {["articles" := VList items]}))).

(** A world with one feed, the same reply to every scoring call, and no
    Reddit. *)
Definition world_of (entries : list rss_entry) (reply : gemini_reply generated)
  : world :=
  {| rss := fun url =>
       if decide (url = feed_url) then Response 200 (RssFeed entries)
       else GetRaises;
     reddit := fun _ => GetRaises;
     now := 300;
     gemini := fun _ => reply |}.

Definition agent_a : agent := init [(feed_url, "A")] [].

(** The service answers 200 with no candidate (a blocked prompt). *)
Definition world_blocked : world :=
  world_of [older; newer] (Answer 200 NoCandidates).

(** The service lists numbers where objects are expected. *)
Definition world_numbers : world :=
  world_of [older; newer] (answer [VInt 80; VInt 70]).

(** A second feed, which the network fails to deliver in every world
    below, listed before the first. *)
Definition agent_ba : agent :=
  init [("https://b.example/feed", "B"); (feed_url, "A")] [].

(** The scoring service is unreachable. *)
Definition world_down : world := world_of [older; newer] PostRaises.

(** The service answers with a score of 250 and a category of its own. *)
Definition world_wild : world :=
  world_of [older; newer]
    (answer [item (VInt 250) "Politics"; item (VInt 250) "Politics"]).

(** The feed lists the same entry twice. *)
Definition world_twice : world := world_of [older; older] PostRaises.

(** The service gives both articles the score 80. *)
Definition world_tie : world :=
  world_of [older; newer] (answer [item (VInt 80) "AI/ML"; item (VInt 80) "AI/ML"]).

End Examples.

Module BotExamples.
Import Py Net Bot.

(** One article as [collect_news] builds it. *)
Definition story : dict :=
  list_to_map
    [("title", VStr "Story");
     ("link", VStr "https://a.example/1");
     ("summary", VStr "text...");
     ("published", VStr "");
     ("source", VStr "A");
     ("timestamp", VInt 0)].

(** No feed answers and the scoring service is unreachable. *)
Definition offline : world :=
  {| feeds := fun _ => GetRaises; gemini := fun _ => PostRaises |}.

(** A bot with an API key whose cache holds [story], built at clock
    reading 0. *)
Definition cached : bot :=
  {| objects := [story];
     gemini_api_key := true;
     news_sources := [("https://a.example/feed", "A")];
     articles_cache := [0%nat];
     last_update := Some 0 |}.

(** One day and ten minutes, in microseconds. *)
Definition a_day_and_ten_minutes : Z := (86400 + 600) * 1000000.

End BotExamples.

Import Py Net Props.

(* ===================================================================== *)
(** ** The sort                                                           *)
(* ===================================================================== *)

Lemma real_of_numeric (a : value) (x : Q) :
  num a = Some x → real_of a = Some (Finite x).
Proof. destruct a; simpl; try done; by intros [= <-]. Qed.

Lemma lt_numeric (a b : value) :
  numeric a → numeric b → lt a b = Ok (Qlt_bool (rank a) (rank b)).
Proof.
  intros [x Hx] [y Hy]. unfold lt, rank.
  by rewrite (real_of_numeric a x Hx), (real_of_numeric b y Hy), Hx, Hy.
Qed.

Lemma sort_lt_numeric (a b : value) :
  numeric a → numeric b → sort_lt a b = Ok (Qlt_bool (rank a) (rank b)).
Proof.
  intros Ha Hb. rewrite <- (lt_numeric a b Ha Hb).
  destruct Ha as [x Hx], Hb as [y Hy].
  by destruct a, b.
Qed.

Lemma Qlt_bool_true (x y : Q) : Qlt_bool x y = true → (x < y)%Q.
Proof.
  unfold Qlt_bool. intros H. apply negb_true_iff in H.
  apply Qnot_le_lt. intros Hle. apply Qle_bool_iff in Hle. congruence.
Qed.

Lemma Qlt_bool_false (x y : Q) : Qlt_bool x y = false → (y <= x)%Q.
Proof.
  unfold Qlt_bool. intros H. apply negb_false_iff in H.
  by apply Qle_bool_iff.
Qed.

Section SortFacts.
Context {A : Type} (key : A → value).

#[local] Abbreviation above := (above key).

(** Where [insert_desc] puts the new item: behind the items strictly
    above it, in front of the first one that is not. *)
Lemma insert_desc_split (x : A) (l : list A) :
  numeric (key x) → Forall (fun y => numeric (key y)) l →
  ∃ l1 l2, l = l1 ++ l2 ∧ insert_desc key x l = Ok (l1 ++ x :: l2) ∧
    Forall (fun y => (rank (key x) < rank (key y))%Q) l1 ∧
    (∀ y, head l2 = Some y → above x y).
Proof.
  intros Hx Hl. induction Hl as [|y l Hy Hl IH].
  - exists [], []. repeat split; [constructor | done].
  - simpl. rewrite (sort_lt_numeric _ _ Hx Hy). simpl.
    destruct (Qlt_bool _ _) eqn:Hlt.
    + destruct IH as (l1 & l2 & -> & -> & Hl1 & Hl2).
      exists (y :: l1), l2. repeat split; [|done].
      constructor; [by apply Qlt_bool_true | done].
    + exists [], (y :: l). repeat split; [constructor|].
      intros ? [= <-]. by apply Qlt_bool_false.
Qed.

Lemma sorted_middle (x : A) (l1 l2 : list A) :
  StronglySorted above (l1 ++ l2) →
  Forall (fun y => (rank (key x) < rank (key y))%Q) l1 →
  (∀ y, head l2 = Some y → above x y) →
  StronglySorted above (l1 ++ x :: l2).
Proof.
  intros Hs Hl1 Hl2. induction l1 as [|y l1 IH]; simpl in *.
  - constructor; [done|].
    destruct l2 as [|z l2]; [constructor|].
    specialize (Hl2 z eq_refl). inversion Hs; subst.
    constructor; [done|].
    eapply Forall_impl; [eassumption|]. intros w Hw. unfold above in *.
    eapply Qle_trans; eassumption.
  - inversion Hs as [|? ? Hs' Hy]; subst.
    inversion Hl1 as [|? ? Hxy Hl1']; subst.
    constructor; [by apply IH|].
    apply Forall_app in Hy as [Hy1 Hy2]. apply Forall_app. split; [done|].
    constructor; [by apply Qlt_le_weak | done].
Qed.

Lemma filter_none_above (x : A) (q : Q) (l1 : list A) :
  (rank (key x) == q)%Q →
  Forall (fun y => (rank (key x) < rank (key y))%Q) l1 →
  filter (fun y => rank (key y) == q)%Q l1 = [].
Proof.
  intros Hq. induction 1 as [|y l1 Hy _ IH]; [done|].
  rewrite filter_cons_False; [done|].
  intros Hyq. rewrite Hq, Hyq in Hy. by apply Qlt_irrefl in Hy.
Qed.

(** On numeric keys the sort returns, and what it returns is the stable
    descending arrangement of its input. *)
Lemma sort_desc_numeric (l : list A) :
  Forall (fun y => numeric (key y)) l →
  ∃ l', sort_desc key l = Ok l' ∧ l ≡ₚ l' ∧ StronglySorted above l' ∧
    ∀ q, filter (fun y => rank (key y) == q)%Q l'
         = filter (fun y => rank (key y) == q)%Q l.
Proof.
  induction 1 as [|x l Hx Hl IH].
  - exists []. repeat split; [done | constructor].
  - destruct IH as (s & Hs & Hperm & Hsorted & Hstable). simpl. rewrite Hs. simpl.
    assert (Hsnum : Forall (fun y => numeric (key y)) s) by by rewrite <- Hperm.
    destruct (insert_desc_split x s Hx Hsnum) as (l1 & l2 & -> & -> & Hl1 & Hl2).
    exists (l1 ++ x :: l2). split; [done|]. split; [|split].
    + rewrite Hperm. apply Permutation_middle.
    + by apply sorted_middle.
    + intros q. rewrite filter_cons, <- Hstable, !filter_app, filter_cons.
      case_decide as Hq; [|done].
      by rewrite (filter_none_above x q l1).
Qed.

Lemma sort_desc_length (l l' : list A) :
  sort_desc key l = Ok l' → length l' = length l.
Proof.
  revert l'. induction l as [|x l IH]; intros l'; simpl.
  - by intros [= <-].
  - destruct (sort_desc key l) as [s|] eqn:Hs; [|done]. simpl.
    specialize (IH s eq_refl). rewrite <- IH. clear.
    revert l'. induction s as [|y s IHs]; intros l'; simpl.
    + by intros [= <-].
    + destruct (sort_lt _ _) as [[]|]; simpl; [| by intros [= <-] | done].
      destruct (insert_desc key x s) as [t|]; [|done]. simpl.
      intros [= <-]. simpl. by rewrite (IHs t eq_refl).
Qed.
End SortFacts.

(* ===================================================================== *)
(** ** Arithmetic on scores                                               *)
(* ===================================================================== *)

Lemma numeric_number (v : value) : numeric v → is_number v.
Proof. intros [x Hx]. exists (Finite x). by apply real_of_numeric. Qed.

Lemma of_float_number (x : real) : is_number (of_float x).
Proof.
  destruct x as [q| |]; simpl; [|by eexists..].
  destruct (too_large q); by eexists.
Qed.

Lemma to_float_number (a : value) :
  is_number a → (∃ x, to_float a = Ok x) ∨ to_float a = Raise OverflowError.
Proof.
  intros [x Hx]. unfold to_float. rewrite Hx.
  destruct (int a) as [z|]; [|left; by eexists].
  destruct (too_large _); [by right | left; by eexists].
Qed.

(** On numbers an addition returns a number, unless an integer operand is
    too large for a float. *)
Lemma add_number (a b : value) :
  is_number a → is_number b →
  (∃ c, add a b = Ok c ∧ is_number c) ∨ add a b = Raise OverflowError.
Proof.
  intros Ha Hb. unfold add.
  destruct (int a) as [x|] eqn:Hinta, (int b) as [y|] eqn:Hintb;
    try (left; eexists; split; [reflexivity|]; by eexists).
  all: destruct Ha as [ra Hra], Hb as [rb Hrb]; rewrite Hra, Hrb.
  all: destruct (to_float_number a (ex_intro _ ra Hra)) as [[fa ->]| ->];
    simpl; [|by right].
  all: destruct (to_float_number b (ex_intro _ rb Hrb)) as [[fb ->]| ->];
    simpl; [|by right].
  all: left; eexists; split; [reflexivity | apply of_float_number].
Qed.

Lemma sum_from_number (vs : list value) (acc : value) :
  is_number acc → Forall is_number vs →
  (∃ total, foldl (fun acc v => acc ≫= fun s => add s v) (Ok acc) vs = Ok total
            ∧ is_number total) ∨
  foldl (fun acc v => acc ≫= fun s => add s v) (Ok acc) vs = Raise OverflowError.
Proof.
  intros Hacc Hvs. revert acc Hacc.
  induction Hvs as [|v vs Hv _ IH]; intros acc Hacc; simpl.
  - left. by exists acc.
  - destruct (add_number acc v Hacc Hv) as [(c & -> & Hc)| ->]; [by apply IH|].
    right. clear. by induction vs.
Qed.

Lemma sum_number (vs : list value) :
  Forall is_number vs →
  (∃ total, sum vs = Ok total ∧ is_number total) ∨ sum vs = Raise OverflowError.
Proof. apply sum_from_number. by eexists. Qed.

Lemma truediv_number (a : value) (n : nat) :
  is_number a → n ≠ 0%nat →
  (∃ q, truediv a n = Ok q) ∨ truediv a n = Raise OverflowError.
Proof.
  intros [x Hx] Hn. unfold truediv. rewrite Hx.
  destruct (decide (n = 0%nat)); [done|].
  destruct (int a); [|left; by eexists].
  destruct (too_large _); [by right | left; by eexists].
Qed.

(** The exceptions of the built-ins: only a division raises
    [ZeroDivisionError], and only by zero. *)
Lemma add_not_zero_division (a b : value) : add a b ≠ Raise ZeroDivisionError.
Proof.
  unfold add, to_float. repeat case_match; simpl; congruence.
Qed.

Lemma sum_not_zero_division (vs : list value) : sum vs ≠ Raise ZeroDivisionError.
Proof.
  unfold sum.
  assert (Ok (VInt 0) ≠ Raise ZeroDivisionError) as Hne by done.
  revert Hne. generalize (Ok (VInt 0)).
  induction vs as [|v vs IH] using rev_ind; intros acc Hne; simpl; [done|].
  rewrite foldl_app. simpl. intros H.
  destruct (foldl _ acc vs) as [s|e] eqn:Hs; simpl in H.
  - by apply add_not_zero_division in H.
  - injection H as ->. by apply (IH acc).
Qed.

Lemma lt_not_zero_division (a b : value) : sort_lt a b ≠ Raise ZeroDivisionError.
Proof. unfold sort_lt, lt. repeat case_match; congruence. Qed.

Lemma sort_desc_not_zero_division {A} (key : A → value) (l : list A) :
  sort_desc key l ≠ Raise ZeroDivisionError.
Proof.
  induction l as [|x l IH]; simpl; [done|].
  destruct (sort_desc key l) as [s|e]; simpl; [|congruence].
  clear IH. induction s as [|y s IHs]; simpl; [done|].
  pose proof (lt_not_zero_division (key x) (key y)) as Hlt.
  destruct (sort_lt (key x) (key y)) as [[]|e]; simpl; [| done | congruence].
  destruct (insert_desc key x s); simpl; [done | congruence].
Qed.

(* ===================================================================== *)
(** ** The agent: enrichment                                              *)
(* ===================================================================== *)

Section AgentEnrichment.
Import Agent.

Lemma match_analysis_length (i n j : nat) (items : list value)
    (articles articles' : list dict) :
  match_analysis i n j items articles = Ok articles' →
  length articles' = length articles.
Proof.
  revert j articles. induction items as [|v items IH]; intros j articles; simpl.
  - by intros [= <-].
  - repeat case_decide; try apply IH.
    destruct v; try done.
    intros Hrest. apply IH in Hrest. by rewrite length_alter in Hrest.
Qed.

Lemma match_analysis_not_zero_division (i n j : nat) (items : list value)
    (articles : list dict) :
  match_analysis i n j items articles ≠ Raise ZeroDivisionError.
Proof.
  revert j articles. induction items as [|v items IH]; intros j articles; simpl.
  - done.
  - repeat case_decide; try apply IH. destruct v; try done.
Qed.

Lemma analyze_batch_length (w : world) (articles articles' : list dict) (i : nat) :
  analyze_batch w articles i = Ok articles' → length articles' = length articles.
Proof.
  unfold analyze_batch. destruct (iter _) as [items|]; simpl; [|done].
  apply match_analysis_length.
Qed.

Lemma analyze_batch_not_zero_division (w : world) (articles : list dict) (i : nat) :
  analyze_batch w articles i ≠ Raise ZeroDivisionError.
Proof.
  unfold analyze_batch, iter. case_match; simpl; try done;
    apply match_analysis_not_zero_division.
Qed.

Lemma analyze_batches_length (w : world) (starts : list nat)
    (articles articles' : list dict) :
  analyze_batches w starts articles = Ok articles' →
  length articles' = length articles.
Proof.
  revert articles. induction starts as [|i starts IH]; intros articles; simpl.
  - by intros [= <-].
  - destruct (analyze_batch w articles i) as [l|] eqn:Hb; simpl; [|done].
    intros H. apply IH in H. apply analyze_batch_length in Hb. congruence.
Qed.

Lemma analyze_batches_not_zero_division (w : world) (starts : list nat)
    (articles : list dict) :
  analyze_batches w starts articles ≠ Raise ZeroDivisionError.
Proof.
  revert articles. induction starts as [|i starts IH]; intros articles; simpl.
  - done.
  - pose proof (analyze_batch_not_zero_division w articles i).
    destruct (analyze_batch w articles i) as [l|]; simpl; [apply IH | congruence].
Qed.

(** Items beyond the batch, and positions the items do not reach, are
    left alone. *)
Lemma match_analysis_other (i n j k : nat) (items : list value)
    (articles articles' : list dict) :
  match_analysis i n j items articles = Ok articles' →
  (k < i + j ∨ i + n ≤ k ∨ i + j + length items ≤ k)%nat →
  articles' !! k = articles !! k.
Proof.
  revert j articles. induction items as [|v items IH]; intros j articles; simpl.
  - by intros [= <-].
  - intros Hrun Hk.
    assert (k < i + S j ∨ i + n ≤ k ∨ i + S j + length items ≤ k)%nat as Hk'
      by lia.
    repeat case_decide; try by apply (IH (S j)).
    destruct v; try done.
    rewrite (IH _ _ Hrun Hk'). apply list_lookup_alter_ne. lia.
Qed.

(** The article at the position of an item receives that item's fields. *)
Lemma match_analysis_at (i n j m : nat) (items : list value)
    (articles articles' : list dict) (analysis x : dict) :
  match_analysis i n j items articles = Ok articles' →
  items !! m = Some (VDict analysis) → (j + m < n)%nat →
  articles !! (i + j + m)%nat = Some x →
  articles' !! (i + j + m)%nat = Some (update (analysis_fields analysis) x).
Proof.
  revert j m articles. induction items as [|v items IH]; intros j m articles; simpl.
  - done.
  - intros Hrun Hm Hn Hx.
    assert (i + j + m < length articles)%nat as Hlen by by eapply lookup_lt_Some.
    destruct m as [|m]; simpl in Hm.
    + injection Hm as ->.
      rewrite decide_True in Hrun by lia. rewrite decide_True in Hrun by lia.
      rewrite (match_analysis_other _ _ _ (i + j + 0) _ _ _ Hrun) by lia.
      replace (i + j + 0)%nat with (i + j)%nat in * by lia.
      by rewrite list_lookup_alter_eq, Hx.
    + replace (i + j + S m)%nat with (i + S j + m)%nat in * by lia.
      repeat case_decide; try (eapply IH; eauto; lia).
      destruct v; try done.
      eapply IH; eauto; [lia|].
      rewrite list_lookup_alter_ne by lia. done.
Qed.

Lemma match_analysis_dicts (i n j : nat) (items : list value)
    (articles : list dict) :
  Forall (fun v => ∃ d, v = VDict d) items →
  ∃ articles', match_analysis i n j items articles = Ok articles'.
Proof.
  intros Hitems. revert j articles.
  induction Hitems as [|v items [d ->] _ IH]; intros j articles; simpl.
  - by eexists.
  - repeat case_decide; apply IH.
Qed.
End AgentEnrichment.

(* ===================================================================== *)
(** ** The agent: the analysis stage as a whole                           *)
(* ===================================================================== *)

Section AgentAnalysis.
Import Agent.

(** C10.  The average of the relevance scores divides by the number of
    collected articles.  The stage returns at once when nothing was
    collected, and otherwise the list keeps its length through the
    batches and the sort, so the division never raises
    [ZeroDivisionError]. *)
Theorem analyze_articles_no_zero_division (w : world) (a : agent) :
  analyze_articles w (set_collected a []) = Ok (set_collected a []) ∧
  analyze_articles w a ≠ Raise ZeroDivisionError.
Proof.
  split; [done|].
  unfold analyze_articles.
  destruct (collected_articles a) as [|x l] eqn:Hcollected; [done|].
  pose proof (analyze_batches_not_zero_division w
                (batch_starts (length (x :: l))) (x :: l)) as Hbatches.
  destruct (analyze_batches _ _ _) as [analysed|e] eqn:Hanalysed; simpl;
    [|congruence].
  pose proof (sort_desc_not_zero_division relevance analysed) as Hsort.
  destruct (sort_desc relevance analysed) as [sorted|e] eqn:Hsorted; simpl;
    [|congruence].
  pose proof (sum_not_zero_division (relevance <$> sorted)) as Hsum.
  destruct (sum _) as [total|e]; simpl; [|congruence].
  apply sort_desc_length in Hsorted.
  apply analyze_batches_length in Hanalysed.
  assert (length sorted ≠ 0%nat) as Hlen by (simpl in *; lia).
  unfold truediv.
  destruct (int total), (real_of total); simpl; try done;
    destruct (decide (length sorted = 0%nat)); try done;
    by destruct (too_large _).
Qed.
End AgentAnalysis.

Section AgentBatch.
Import Agent.

Lemma analyze_with_gemini_fails (reply : gemini_reply generated)
    (batch : list dict) :
  scoring_fails reply → analyze_with_gemini reply batch = VList [].
Proof.
  unfold analyze_with_gemini. destruct (forallb _ _); [|done].
  destruct reply as [|status_code body]; simpl; [done|].
  destruct (decide (status_code = 200)); [|done].
  by intros [? | [-> | ->]].
Qed.

(** What a batch whose items are all objects does to the article at the
    position of an item. *)
Lemma analyze_batch_at (w : world) (articles : list dict) (i j : nat)
    (items : list value) (analysis x : dict) :
  analyze_with_gemini (gemini w i) (take batch_size (drop i articles))
    = VList items →
  Forall (fun v => ∃ d, v = VDict d) items →
  items !! j = Some (VDict analysis) → (j < batch_size)%nat →
  articles !! (i + j)%nat = Some x →
  ∃ articles', analyze_batch w articles i = Ok articles' ∧
    articles' !! (i + j)%nat = Some (update (analysis_fields analysis) x).
Proof.
  intros Hreply Hitems Hj Hsize Hx. unfold analyze_batch. rewrite Hreply. simpl.
  destruct (match_analysis_dicts i
              (length (take batch_size (drop i articles))) 0 items articles
              Hitems) as [articles' Hrun].
  exists articles'. split; [done|].
  apply lookup_lt_Some in Hx as Hlen.
  replace (i + j)%nat with (i + 0 + j)%nat in * by lia.
  eapply match_analysis_at; eauto.
  rewrite length_take, length_drop. lia.
Qed.
End AgentBatch.

Section AgentBatchClaims.
Import Agent Examples.

(** C2 (as amended).  When the scoring call for a batch raises, answers
    with a status other than 200, or answers with a body or a text that
    is not JSON, [analyze_with_gemini] returns the empty list and the
    batch leaves every article as it was collected: no category, score
    or sentiment is stored. *)
Theorem failed_batch_leaves_articles (w : world) (articles : list dict)
    (i : nat) :
  scoring_fails (gemini w i) →
  analyze_with_gemini (gemini w i) (take batch_size (drop i articles))
    = VList [] ∧
  analyze_batch w articles i = Ok articles.
Proof.
  intros Hfails. unfold analyze_batch.
  by rewrite (analyze_with_gemini_fails _ _ Hfails).
Qed.

Lemma failed_batch_leaves_articles_run :
  scoring_fails (gemini world_down 0) ∧
  analyze_batch world_down (collected_articles (collect world_down agent_a)) 0
    = Ok (collected_articles (collect world_down agent_a)).
Proof.
  split; [exact I|].
  apply (failed_batch_leaves_articles world_down _ 0). exact I.
Defined.

(** C2 as stated fails: with the service unreachable the articles end
    the stage without category, score and sentiment. *)
Lemma failed_batch_without_fallback :
  scoring_fails (gemini world_down 0) ∧
  ∃ a', analyze_articles world_down (collect world_down agent_a) = Ok a' ∧
        ¬ Forall carries_fallback (collected_articles a').
Proof.
  split; [exact I|]. eexists. split; [vm_compute; reflexivity|].
  intros Hall. inversion Hall as [|x l [Hcategory _] _]; subst.
  vm_compute in Hcategory. discriminate.
Qed.

(** C6 (as amended).  The relevance score stored on an article is the
    value the service returned for its position, unchanged, and 50 when
    the item carries none: nothing clamps it. *)
Theorem stored_score_is_returned_score (w : world) (articles : list dict)
    (i j : nat) (items : list value) (analysis x : dict) :
  analyze_with_gemini (gemini w i) (take batch_size (drop i articles))
    = VList items →
  Forall (fun v => ∃ d, v = VDict d) items →
  items !! j = Some (VDict analysis) → (j < batch_size)%nat →
  articles !! (i + j)%nat = Some x →
  ∃ articles' x', analyze_batch w articles i = Ok articles' ∧
    articles' !! (i + j)%nat = Some x' ∧
    x' !! "relevance_score" = Some (get analysis "relevance_score" (VInt 50)).
Proof.
  intros Hreply Hitems Hj Hsize Hx.
  destruct (analyze_batch_at w articles i j items analysis x)
    as (articles' & Hrun & Hat); try done.
  exists articles', (update (analysis_fields analysis) x).
  repeat split; try done.
  unfold update. apply lookup_union_Some_l. reflexivity.
Qed.

(** C7 (as amended).  The category stored on an article is the value
    the service returned for its position, whatever it is, and [Other]
    when the item carries none. *)
Theorem stored_category_is_returned_category (w : world)
    (articles : list dict) (i j : nat) (items : list value)
    (analysis x : dict) :
  analyze_with_gemini (gemini w i) (take batch_size (drop i articles))
    = VList items →
  Forall (fun v => ∃ d, v = VDict d) items →
  items !! j = Some (VDict analysis) → (j < batch_size)%nat →
  articles !! (i + j)%nat = Some x →
  ∃ articles' x', analyze_batch w articles i = Ok articles' ∧
    articles' !! (i + j)%nat = Some x' ∧
    x' !! "category" = Some (get analysis "category" (VStr "Other")).
Proof.
  intros Hreply Hitems Hj Hsize Hx.
  destruct (analyze_batch_at w articles i j items analysis x)
    as (articles' & Hrun & Hat); try done.
  exists articles', (update (analysis_fields analysis) x).
  repeat split; try done.
  unfold update. apply lookup_union_Some_l. reflexivity.
Qed.
End AgentBatchClaims.

Section AgentBatchRuns.
Import Agent Examples.

Lemma stored_score_is_returned_score_run :
  ∃ articles' x',
    analyze_batch world_wild (collected_articles (collect world_wild agent_a)) 0
      = Ok articles' ∧
    articles' !! 0%nat = Some x' ∧
    x' !! "relevance_score" = Some (VInt 250).
Proof.
  destruct (stored_score_is_returned_score world_wild
              (collected_articles (collect world_wild agent_a)) 0 0
              [item (VInt 250) "Politics"; item (VInt 250) "Politics"]
              (list_to_map [("relevance_score", VInt 250);
                            ("category", VStr "Politics")])
              (default ∅ (collected_articles (collect world_wild agent_a) !! 0%nat)))
    as (articles' & x' & Hrun & Hat & Hscore).
  - vm_compute. reflexivity.
  - repeat constructor; eexists; reflexivity.
  - reflexivity.
  - unfold batch_size. lia.
  - vm_compute. reflexivity.
  - exists articles', x'. split; [exact Hrun|]. split; [exact Hat|]. exact Hscore.
Defined.

(** C6 as stated fails: a score of 250 from the service is stored as
    250. *)
Lemma out_of_range_score_is_stored :
  ∃ a', analyze_articles world_wild (collect world_wild agent_a) = Ok a' ∧
        ¬ Forall (fun x => ∀ v, x !! "relevance_score" = Some v →
                           in_declared_range v)
            (collected_articles a').
Proof.
  eexists. split; [vm_compute; reflexivity|].
  intros Hall. inversion Hall as [|x l Hx _]; subst.
  destruct (Hx (VInt 250)) as (q & Hq & _ & Hle); [vm_compute; reflexivity|].
  injection Hq as <-. unfold Qle in Hle. simpl in Hle. lia.
Qed.

Lemma stored_category_is_returned_category_run :
  ∃ articles' x',
    analyze_batch world_wild (collected_articles (collect world_wild agent_a)) 0
      = Ok articles' ∧
    articles' !! 0%nat = Some x' ∧
    x' !! "category" = Some (VStr "Politics").
Proof.
  destruct (stored_category_is_returned_category world_wild
              (collected_articles (collect world_wild agent_a)) 0 0
              [item (VInt 250) "Politics"; item (VInt 250) "Politics"]
              (list_to_map [("relevance_score", VInt 250);
                            ("category", VStr "Politics")])
              (default ∅ (collected_articles (collect world_wild agent_a) !! 0%nat)))
    as (articles' & x' & Hrun & Hat & Hcategory).
  - vm_compute. reflexivity.
  - repeat constructor; eexists; reflexivity.
  - reflexivity.
  - unfold batch_size. lia.
  - vm_compute. reflexivity.
  - exists articles', x'. split; [exact Hrun|]. split; [exact Hat|]. exact Hcategory.
Defined.

(** C7 as stated fails: a category outside the closed set is stored as
    the service gave it. *)
Lemma foreign_category_is_stored :
  ∃ a', analyze_articles world_wild (collect world_wild agent_a) = Ok a' ∧
        ¬ Forall (fun x => ∀ v, x !! "category" = Some v → in_categories v)
            (collected_articles a').
Proof.
  eexists. split; [vm_compute; reflexivity|].
  intros Hall. inversion Hall as [|x l Hx _]; subst.
  destruct (Hx (VStr "Politics")) as (c & Hc & Hin); [vm_compute; reflexivity|].
  injection Hc as <-. unfold categories in Hin.
  repeat (apply elem_of_cons in Hin as [Hin|Hin]; [discriminate|]).
  by apply elem_of_nil in Hin.
Qed.
End AgentBatchRuns.

(* ===================================================================== *)
(** ** The agent: ranking and digest selection                            *)
(* ===================================================================== *)

Section AgentRanking.
Import Agent Examples.



End AgentRanking.

Section AgentDigest.
Import Agent Examples.

Lemma ge_numeric (a b : value) :
  numeric a → numeric b → ge a b = Ok (Qle_bool (rank b) (rank a)).
Proof.
  intros [x Hx] [y Hy]. unfold ge, rank.
  by rewrite (real_of_numeric a x Hx), (real_of_numeric b y Hy), Hx, Hy.
Qed.

(** On numeric scores the comprehension is the filter by the threshold. *)
Lemma comprehension_numeric (articles : list dict) :
  Forall (fun x => numeric (relevance x)) articles →
  comprehension (fun a => ge (relevance a) (VInt 60)) articles
  = Ok (filter (fun x => 60 <= rank (relevance x))%Q articles).
Proof.
  induction 1 as [|x l Hx _ IH]; simpl; [done|].
  rewrite (ge_numeric _ (VInt 60) Hx) by by eexists. simpl. rewrite IH. simpl.
  rewrite filter_cons. change (rank (VInt 60)) with 60%Q.
  destruct (Qle_bool 60 (rank (relevance x))) eqn:Hle.
  - apply Qle_bool_iff in Hle. by rewrite decide_True.
  - rewrite decide_False; [done|].
    intros Hle'. apply Qle_bool_iff in Hle'. congruence.
Qed.

(** C5.  When articles were collected, the digest selection is never
    empty.  With numeric scores it returns the first 15 of the articles
    scoring at least 60 and, when there is none, falls back to the first
    10 of all articles. *)
Theorem top_articles_never_empty (a : agent) :
  collected_articles a ≠ [] →
  top_articles a ≠ Ok None ∧
  top_articles a ≠ Ok (Some []) ∧
  (Forall (fun x => numeric (relevance x)) (collected_articles a) →
   ∃ top, top_articles a = Ok (Some top) ∧ top ≠ [] ∧
     top = match take 15 (filter (fun x => 60 <= rank (relevance x))%Q
                            (collected_articles a)) with
           | [] => take 10 (collected_articles a)
           | kept => kept
           end).
Proof.
  intros Hsome. unfold top_articles.
  destruct (collected_articles a) as [|x l] eqn:Hcollected; [done|].
  split; [|split].
  - destruct (comprehension _ _); simpl; congruence.
  - destruct (comprehension _ _) as [kept|]; simpl; [|congruence].
    destruct (take 15 kept); simpl; congruence.
  - intros Hnumeric. rewrite (comprehension_numeric _ Hnumeric). simpl.
    destruct (take 15 _) as [|y kept]; eexists; (split; [reflexivity|]);
      (split; [simpl; congruence | reflexivity]).
Qed.

Lemma top_articles_never_empty_run :
  collected_articles (collect world_down agent_a) ≠ [] ∧
  top_articles (collect world_down agent_a)
    = Ok (Some (collected_articles (collect world_down agent_a))).
Proof.
  assert (collected_articles (collect world_down agent_a) ≠ []) as Hsome.
  { vm_compute. discriminate. }
  split; [exact Hsome|].
  destruct (top_articles_never_empty (collect world_down agent_a) Hsome)
    as (_ & _ & Hfallback).
  destruct Hfallback as (top & Hrun & _ & Htop).
  - repeat constructor; eexists; vm_compute; reflexivity.
  - rewrite Hrun, Htop. vm_compute. reflexivity.
Defined.
End AgentDigest.

(* ===================================================================== *)
(** ** The agent: collection                                              *)
(* ===================================================================== *)

Section AgentCollection.
Import Agent Examples.

Lemma process_rss_feed_result (w : world) (url name : string) (a : agent) :
  (process_rss_feed w url name a).2 = feed_result w (url, name) ∧
  collected_articles (process_rss_feed w url name a).1
    = collected_articles a ++ feed_result w (url, name) ∧
  website_sources (process_rss_feed w url name a).1 = website_sources a ∧
  reddit_sources (process_rss_feed w url name a).1 = reddit_sources a.
Proof.
  unfold feed_result, process_rss_feed. simpl.
  destruct (fetch_url (rss w) url) as [[| |entries]|]; simpl;
    by rewrite ?app_nil_r.
Qed.

Lemma collect_rss_from (w : world) (sources : list (string * string))
    (a : agent) :
  let a' := foldl (fun a '(url, name) => (process_rss_feed w url name a).1)
              a sources in
  collected_articles a'
    = collected_articles a ++ mjoin (feed_result w <$> sources) ∧
  website_sources a' = website_sources a ∧
  reddit_sources a' = reddit_sources a.
Proof.
  revert a. induction sources as [|[url name] sources IH]; intros a; simpl.
  - by rewrite app_nil_r.
  - destruct (process_rss_feed_result w url name a) as (_ & Hc & Hw & Hr).
    destruct (IH (process_rss_feed w url name a).1) as (Hc' & Hw' & Hr').
    rewrite Hc', Hw', Hr', Hc, Hw, Hr. by rewrite <- app_assoc.
Qed.

Lemma collect_subreddit_result (w : world) (a : agent) (subreddit : string) :
  collected_articles (collect_subreddit w a subreddit)
    = collected_articles a ++ listing_result w subreddit ∧
  website_sources (collect_subreddit w a subreddit) = website_sources a ∧
  reddit_sources (collect_subreddit w a subreddit) = reddit_sources a.
Proof.
  unfold listing_result, collect_subreddit.
  destruct (fetch_url (reddit w) _) as [[| |children]|]; simpl;
    by rewrite ?app_nil_r.
Qed.

Lemma collect_reddit_from (w : world) (subreddits : list string) (a : agent) :
  collected_articles (foldl (collect_subreddit w) a subreddits)
    = collected_articles a ++ mjoin (listing_result w <$> subreddits).
Proof.
  revert a. induction subreddits as [|subreddit subreddits IH]; intros a; simpl.
  - by rewrite app_nil_r.
  - destruct (collect_subreddit_result w a subreddit) as (Hc & _ & _).
    by rewrite IH, Hc, <- app_assoc.
Qed.

(** The collected list is the concatenation of what the sources
    contribute, feeds first. *)
Lemma collect_collected (w : world) (a : agent) :
  collected_articles (collect w a)
    = collected_articles a ++ mjoin (feed_result w <$> website_sources a)
        ++ mjoin (listing_result w <$> reddit_sources a).
Proof.
  unfold collect, collect_reddit_posts, collect_rss_feeds.
  destruct (collect_rss_from w (website_sources a) a) as (Hc & _ & Hr).
  simpl in Hc, Hr. by rewrite collect_reddit_from, Hr, Hc, <- app_assoc.
Qed.

Lemma feed_result_fails (w : world) (url name : string) :
  feed_fails (rss w url) → feed_result w (url, name) = [].
Proof.
  unfold feed_result, process_rss_feed, fetch_url. simpl.
  destruct (rss w url) as [|status text]; simpl; [done|].
  destruct (decide (status = 200)); [|done].
  intros [? | ->]; done.
Qed.

Lemma listing_result_fails (w : world) (subreddit : string) :
  listing_fails
    (reddit w ("https://www.reddit.com/r/" +:+ subreddit +:+ "/hot.json?limit=5")) →
  listing_result w subreddit = [].
Proof.
  unfold listing_result, collect_subreddit, fetch_url.
  destruct (reddit w _) as [|status text]; simpl; [done|].
  destruct (decide (status = 200)); [|done].
  intros [? | ->]; done.
Qed.

End AgentCollection.

Section AgentCollectionRuns.
Import Agent Examples.


Lemma rss_article_key (w : world) (name : string) (e : rss_entry) (x : dict) :
  rss_article w name e = Some x → x !! "source" = Some (VStr name).
Proof.
  destruct e as [|published_parsed updated_parsed title link summary description];
    simpl; [done|].
  case_match; [done|]. by intros [= <-].
Qed.

Lemma feed_result_source (w : world) (source : string * string) :
  Forall (fun x => x !! "source" = Some (VStr source.2)) (feed_result w source).
Proof.
  unfold feed_result, process_rss_feed.
  destruct (fetch_url (rss w) source.1) as [[| |entries]|]; simpl;
    try by constructor.
  apply Forall_forall. intros x Hx.
  apply list_elem_of_omap in Hx as (e & _ & He).
  by eapply rss_article_key.
Qed.

Lemma reddit_articles_source (w : world) (subreddit : string)
    (children : list reddit_post) :
  Forall (fun x => x !! "source" = Some (VStr ("r/" +:+ subreddit)))
    (reddit_articles w subreddit children).
Proof.
  induction children as [|[|created_utc score title permalink selftext] rest IH];
    simpl; try by constructor.
  repeat case_match; try done; try by constructor.
Qed.

Lemma listing_result_source (w : world) (subreddit : string) :
  Forall (fun x => x !! "source" = Some (VStr ("r/" +:+ subreddit)))
    (listing_result w subreddit).
Proof.
  unfold listing_result, collect_subreddit.
  destruct (fetch_url (reddit w) _) as [[| |children]|]; simpl;
    try by constructor.
  apply reddit_articles_source.
Qed.

(** Lists filed under pairwise distinct names, none of which repeats a
    URL, have no (source, url) pair in common and none twice. *)
Lemma NoDup_by_source (groups : list (string * list dict)) :
  NoDup groups.*1 →
  Forall (fun g => Forall (fun x => x !! "source" = Some (VStr g.1)) g.2 ∧
                   NoDup ((fun x : dict => x !! "url") <$> g.2)) groups →
  NoDup (dedup_key <$> mjoin groups.*2).
Proof.
  intros Hnames Hgroups.
  induction Hgroups as [|[name l] groups [Hsource Hurls] Hgroups IH]; simpl.
  - constructor.
  - simpl in *. apply NoDup_cons in Hnames as [Hname Hnames].
    rewrite fmap_app. apply NoDup_app. split; [|split].
    + eapply (NoDup_fmap_1 snd). by rewrite <- list_fmap_compose.
    + intros k Hk Hk'.
      apply list_elem_of_fmap in Hk as (x & -> & Hx).
      apply list_elem_of_fmap in Hk' as (y & Hxy & Hy).
      apply list_elem_of_join in Hy as (l' & Hy & Hl').
      apply list_elem_of_fmap in Hl' as ([name' l''] & -> & Hg).
      rewrite Forall_forall in Hsource. rewrite Forall_forall in Hgroups.
      destruct (Hgroups _ Hg) as [Hsource' _]. simpl in *.
      rewrite Forall_forall in Hsource'.
      specialize (Hsource _ Hx). specialize (Hsource' _ Hy).
      unfold dedup_key in Hxy. injection Hxy as Hs _.
      rewrite Hsource, Hsource' in Hs. injection Hs as ->.
      apply Hname. apply list_elem_of_fmap. by exists (name', l'').
    + by apply IH.
Qed.

Lemma collect_as_collected (w : world) (completed : list (string * string))
    (a : agent) :
  collected_articles (collect_as w completed a)
    = collected_articles a ++ mjoin (feed_result w <$> completed)
        ++ mjoin (listing_result w <$> reddit_sources a).
Proof.
  unfold collect_as, collect_reddit_posts.
  destruct (collect_rss_from w completed a) as (Hc & _ & Hr).
  simpl in Hc, Hr. by rewrite collect_reddit_from, Hr, Hc, <- app_assoc.
Qed.

(** C1 (as amended).  No deduplication is applied: in whatever order the
    fetches of the feeds complete, the collected list holds exactly what
    the sources contribute.  Starting from the empty list, it has no two
    items with an equal (source, url) pair provided the sources have
    pairwise distinct display names and no single source contributes the
    same URL twice. *)
Theorem collect_distinct_sources (w : world) (a : agent)
    (completed : list (string * string)) :
  completed ≡ₚ website_sources a →
  collected_articles a = [] →
  NoDup (source_names a) →
  (∀ source, source ∈ website_sources a →
     NoDup ((fun x : dict => x !! "url") <$> feed_result w source)) →
  (∀ subreddit, subreddit ∈ reddit_sources a →
     NoDup ((fun x : dict => x !! "url") <$> listing_result w subreddit)) →
  collected_articles (collect_as w completed a)
    ≡ₚ mjoin (feed_result w <$> website_sources a)
         ++ mjoin (listing_result w <$> reddit_sources a) ∧
  NoDup (dedup_key <$> collected_articles (collect_as w completed a)).
Proof.
  intros Hcompleted Hempty Hnames Hfeeds Hlistings.
  assert (collected_articles (collect_as w completed a)
            ≡ₚ mjoin (feed_result w <$> website_sources a)
                 ++ mjoin (listing_result w <$> reddit_sources a)) as Hperm.
  { rewrite collect_as_collected, Hempty. simpl. by rewrite Hcompleted. }
  split; [done|]. rewrite Hperm.
  pose (groups :=
          ((fun source => (source.2, feed_result w source)) <$> website_sources a)
          ++ ((fun subreddit => ("r/" +:+ subreddit, listing_result w subreddit))
                <$> reddit_sources a)).
  assert (mjoin (feed_result w <$> website_sources a)
            ++ mjoin (listing_result w <$> reddit_sources a)
          = mjoin groups.*2) as ->.
  { unfold groups. rewrite fmap_app, join_app, <- !list_fmap_compose. done. }
  apply NoDup_by_source.
  - unfold groups. rewrite fmap_app, <- !list_fmap_compose. exact Hnames.
  - unfold groups. apply Forall_app. split; apply Forall_fmap, Forall_forall.
    + intros source Hin. simpl. split; [apply feed_result_source | by apply Hfeeds].
    + intros subreddit Hin. simpl.
      split; [apply listing_result_source | by apply Hlistings].
Qed.
End AgentCollectionRuns.

Section AgentDedupRuns.
Import Agent Examples.

Lemma collect_distinct_sources_run :
  [(feed_url, "A"); ("https://b.example/feed", "B")]
    ≡ₚ website_sources agent_ba ∧
  NoDup (source_names agent_ba) ∧
  NoDup (dedup_key <$>
           collected_articles
             (collect_as world_down
                [(feed_url, "A"); ("https://b.example/feed", "B")] agent_ba)).
Proof.
  assert ([(feed_url, "A"); ("https://b.example/feed", "B")]
            ≡ₚ website_sources agent_ba) as Hcompleted.
  { apply perm_swap. }
  assert (NoDup (source_names agent_ba)) as Hnames.
  { apply NoDup_cons. split; [|apply NoDup_singleton].
    intros Hin. apply list_elem_of_singleton in Hin. discriminate. }
  split; [exact Hcompleted|]. split; [exact Hnames|].
  apply (collect_distinct_sources world_down agent_ba _ Hcompleted).
  - reflexivity.
  - exact Hnames.
  - intros source Hin.
    apply elem_of_cons in Hin as [->|Hin];
      [|apply list_elem_of_singleton in Hin; subst source].
    + vm_compute. apply NoDup_nil. exact I.
    + vm_compute. apply NoDup_cons. split; [|apply NoDup_singleton].
      intros Hin. apply list_elem_of_singleton in Hin. discriminate.
  - intros subreddit Hin. apply elem_of_nil in Hin. destruct Hin.
Defined.

(** C1 as stated fails: a feed that lists one entry twice yields two
    collected articles with the same (source, url) pair. *)
Lemma repeated_entry_is_collected_twice :
  ¬ NoDup (dedup_key <$> collected_articles (collect world_twice agent_a)).
Proof.
  intros Hnodup. vm_compute in Hnodup.
  apply NoDup_cons in Hnodup as [Hnotin _]. apply Hnotin. left.
Qed.
End AgentDedupRuns.

(* ===================================================================== *)
(** ** The bot: enrichment in place                                       *)
(* ===================================================================== *)

Section BotEnrichment.
Import Bot BotExamples.

Lemma analyze_loop_spec (w : world) (n : nat) (articles analyzed : list nat)
    (objects : list dict) :
  NoDup articles →
  (analyze_loop w n articles analyzed objects).2 = analyzed ++ articles ∧
  length (analyze_loop w n articles analyzed objects).1 = length objects ∧
  (∀ k article, articles !! k = Some article →
     (analyze_loop w n articles analyzed objects).1 !! article
     = analyze_article (gemini w (n + k)) <$> objects !! article) ∧
  (∀ article, article ∉ articles →
     (analyze_loop w n articles analyzed objects).1 !! article
     = objects !! article).
Proof.
  intros Hnodup. revert n analyzed objects.
  induction Hnodup as [|r rest Hr Hrest IH]; intros n analyzed objects; simpl.
  - rewrite app_nil_r. repeat split; done.
  - destruct (IH (S n) (analyzed ++ [r])
                (alter (analyze_article (gemini w n)) r objects))
      as (Hlist & Hlen & Hin & Hout).
    rewrite Hlist, Hlen, length_alter, <- app_assoc. simpl.
    repeat split; try done.
    + intros [|k] article Hk; simpl in Hk.
      * injection Hk as <-. rewrite (Hout r Hr), list_lookup_alter_eq.
        by replace (n + 0)%nat with n by lia.
      * rewrite (Hin k article Hk).
        replace (S n + k)%nat with (n + S k)%nat by lia.
        rewrite list_lookup_alter_ne; [done|].
        intros ->. apply Hr. by eapply list_elem_of_lookup_2.
    + intros article Hnotin. apply not_elem_of_cons in Hnotin as [Hne Hnotin].
      rewrite (Hout article Hnotin). by apply list_lookup_alter_ne.
Qed.

Lemma no_key_loop_spec (articles : list nat) (objects : list dict) :
  NoDup articles →
  length (foldl (fun o article => alter no_key_values article o)
            objects articles) = length objects ∧
  (∀ article, article ∈ articles →
     foldl (fun o article => alter no_key_values article o) objects articles
       !! article = no_key_values <$> objects !! article) ∧
  (∀ article, article ∉ articles →
     foldl (fun o article => alter no_key_values article o) objects articles
       !! article = objects !! article).
Proof.
  intros Hnodup. revert objects.
  induction Hnodup as [|r rest Hr Hrest IH]; intros objects; simpl.
  - repeat split; try done. intros article Hin. by apply elem_of_nil in Hin.
  - destruct (IH (alter no_key_values r objects)) as (Hlen & Hin & Hout).
    rewrite Hlen, length_alter. repeat split; try done.
    + intros article Harticle. apply elem_of_cons in Harticle as [->|Harticle].
      * by rewrite (Hout r Hr), list_lookup_alter_eq.
      * rewrite (Hin article Harticle). rewrite list_lookup_alter_ne; [done|].
        by intros ->.
    + intros article Hnotin. apply not_elem_of_cons in Hnotin as [Hne Hnotin].
      rewrite (Hout article Hnotin). by apply list_lookup_alter_ne.
Qed.

(** C9 (as amended).  Enrichment works in place.  The list it returns
    holds the very articles it was given, in the same order; the dict of
    each of them is updated where it stands, with the fields of the
    service's answer or with the fallback values; no other dict is
    touched and none is created. *)
Theorem enrichment_is_in_place (w : world) (articles : list nat) (s : bot) :
  NoDup articles →
  (analyze_articles_with_ai w articles s).2 = articles ∧
  length (objects (analyze_articles_with_ai w articles s).1)
    = length (objects s) ∧
  (∀ n article, articles !! n = Some article →
     objects (analyze_articles_with_ai w articles s).1 !! article
     = enriched w s n <$> objects s !! article) ∧
  (∀ article, article ∉ articles →
     objects (analyze_articles_with_ai w articles s).1 !! article
     = objects s !! article).
Proof.
  intros Hnodup. unfold analyze_articles_with_ai, enriched.
  destruct (gemini_api_key s).
  - destruct (analyze_loop_spec w 0 articles [] (objects s) Hnodup)
      as (Hlist & Hlen & Hin & Hout).
    destruct (analyze_loop w 0 articles [] (objects s)) as [objects' analyzed].
    simpl in *. repeat split; done.
  - destruct (no_key_loop_spec articles (objects s) Hnodup)
      as (Hlen & Hin & Hout).
    simpl. repeat split; try done.
    intros n article Hn. apply Hin. by eapply list_elem_of_lookup_2.
Qed.

Lemma enrichment_is_in_place_run :
  NoDup [0%nat] ∧
  objects (analyze_articles_with_ai offline [0%nat] cached).1 !! 0%nat
    = Some (fallback_values story).
Proof.
  assert (NoDup [0%nat]) as Hnodup by apply NoDup_singleton.
  split; [exact Hnodup|].
  destruct (enrichment_is_in_place offline [0%nat] cached Hnodup)
    as (_ & _ & Hin & _).
  rewrite (Hin 0%nat 0%nat); reflexivity.
Defined.

(** C9 as stated fails: the dict of an article handed to enrichment is
    not the same afterwards. *)
Lemma enrichment_changes_its_input :
  ¬ left_unchanged [0%nat] cached
      (analyze_articles_with_ai offline [0%nat] cached).1.
Proof.
  intros Hsame. specialize (Hsame 0%nat).
  assert (objects (analyze_articles_with_ai offline [0%nat] cached).1 !! 0%nat
            ≫= (fun x : dict => x !! "sentiment")
          = objects cached !! 0%nat ≫= (fun x : dict => x !! "sentiment"))
    as Hfield.
  { rewrite Hsame; [done | apply list_elem_of_singleton; done]. }
  vm_compute in Hfield. discriminate.
Qed.
End BotEnrichment.

(* ===================================================================== *)
(** ** The bot: the cache                                                 *)
(* ===================================================================== *)

Section BotCache.
Import Bot BotExamples.

(** Up to thirty minutes after a build the cache is served as it is. *)
Lemma refresh_within_ttl (w : world) (now t : Z) (s : bot) :
  articles_cache s ≠ [] → last_update s = Some t →
  (0 ≤ now - t ≤ ttl)%Z →
  refresh w now s = s.
Proof.
  intros Hcache Hlast Hage. unfold refresh, must_update. rewrite Hlast.
  destruct (articles_cache s); [done|].
  rewrite bool_decide_eq_false_2; [done|].
  unfold seconds, ttl in *.
  assert (0 ≤ (now - t) `div` 1000000 ≤ 1800)%Z as Hdiv.
  { split; [apply Z.div_pos; lia|].
    apply Z.div_le_upper_bound; lia. }
  rewrite Z.mod_small; lia.
Qed.

(** Between thirty minutes and one day after a build the cache is
    rebuilt, and the new build carries the current clock reading. *)
Lemma refresh_after_ttl (w : world) (now t : Z) (s : bot) :
  last_update s = Some t →
  (ttl + 1000000 ≤ now - t < 86400 * 1000000)%Z →
  last_update (refresh w now s) = Some now.
Proof.
  intros Hlast Hage. unfold refresh, must_update. rewrite Hlast.
  assert (bool_decide (1800 < seconds (now - t)) = true) as Hstale.
  { apply bool_decide_eq_true_2. unfold seconds, ttl in *.
    assert (1801 ≤ (now - t) `div` 1000000 < 86400)%Z as Hdiv.
    { split; [apply Z.div_le_lower_bound; lia|].
      apply Z.div_lt_upper_bound; lia. }
    rewrite Z.mod_small; lia. }
  rewrite Hstale.
  assert (last_update (collect_news w now s).1 = Some now) as Hbuilt.
  { unfold collect_news. by destruct (analyze_articles_with_ai _ _ _). }
  by destruct (articles_cache s).
Qed.

(** C8.  One day and ten minutes after a build, a request is still
    served from the cache and carries the old generation timestamp: the
    test reads [timedelta.seconds], the seconds within the day, where
    the elapsed time was meant. *)
Theorem cache_served_a_day_later :
  ttl < a_day_and_ten_minutes - 0 ∧
  must_update a_day_and_ten_minutes cached = false ∧
  refresh offline a_day_and_ten_minutes cached = cached ∧
  last_update (refresh offline a_day_and_ten_minutes cached) = Some 0.
Proof.
  split; [unfold ttl, a_day_and_ten_minutes; lia|].
  split; [vm_compute; reflexivity|].
  split; reflexivity.
Qed.
End BotCache.

(* ===================================================================== *)
(** ** The agent: the batch loop as a whole                               *)
(* ===================================================================== *)

Section AgentLoop.
Import Agent.

Lemma analyze_batch_other (w : world) (articles articles' : list dict)
    (i k : nat) :
  analyze_batch w articles i = Ok articles' →
  (k < i ∨ i + batch_size ≤ k)%nat →
  articles' !! k = articles !! k.
Proof.
  unfold analyze_batch. destruct (iter _) as [items|]; simpl; [|done].
  intros Hrun Hk. eapply match_analysis_other; [exact Hrun|].
  pose proof (length_take_le (drop i articles) batch_size) as Hlen.
  rewrite length_take. lia.
Qed.

Lemma analyze_batch_in (w : world) (articles : list dict) (i : nat)
    (items : list value) :
  analyze_with_gemini (gemini w i) (take batch_size (drop i articles))
    = VList items →
  Forall (fun v => ∃ d, v = VDict d) items →
  ∃ articles', analyze_batch w articles i = Ok articles' ∧
    ∀ j x, (j < batch_size)%nat → articles !! (i + j)%nat = Some x →
      articles' !! (i + j)%nat = Some (enriched_with (items !! j) x).
Proof.
  intros Hreply Hitems. unfold analyze_batch. rewrite Hreply. simpl.
  destruct (match_analysis_dicts i
              (length (take batch_size (drop i articles))) 0 items articles
              Hitems) as [articles' Hrun].
  exists articles'. split; [done|]. intros j x Hj Hx.
  apply lookup_lt_Some in Hx as Hlen.
  destruct (items !! j) as [v|] eqn:Hv; simpl.
  - rewrite Forall_lookup in Hitems. destruct (Hitems j v Hv) as [d ->].
    replace (i + j)%nat with (i + 0 + j)%nat in * by lia.
    eapply match_analysis_at; eauto.
    rewrite length_take, length_drop. lia.
  - apply lookup_ge_None in Hv.
    rewrite (match_analysis_other _ _ _ (i + j) _ _ _ Hrun) by lia. done.
Qed.

Lemma drop_agree (c l : list dict) (i : nat) :
  (∀ k, (i ≤ k)%nat → c !! k = l !! k) → drop i c = drop i l.
Proof.
  intros Hagree. apply list_eq. intros k. rewrite !lookup_drop.
  apply Hagree. lia.
Qed.

Lemma batch_of (q k : nat) :
  (q * batch_size ≤ k < q * batch_size + batch_size)%nat →
  (k / batch_size * batch_size = q * batch_size)%nat.
Proof.
  unfold batch_size. intros Hk. f_equal. symmetry.
  apply (Nat.div_unique k 5 q (k - q * 5)); lia.
Qed.

(** The batches from number [q0] on, run on a list [c] that still agrees
    with the collected list [l] from that batch on. *)
Lemma analyze_batches_from (w : world) (l : list dict) (m q0 : nat)
    (c : list dict) :
  (∀ q, (q0 ≤ q < q0 + m)%nat →
     ∃ items,
       analyze_with_gemini (gemini w (q * batch_size))
         (take batch_size (drop (q * batch_size) l)) = VList items ∧
       Forall (fun v => ∃ d, v = VDict d) items) →
  (∀ k, (q0 * batch_size ≤ k)%nat → c !! k = l !! k) →
  ∃ c', analyze_batches w ((fun q => q * batch_size)%nat <$> seq q0 m) c = Ok c' ∧
    (∀ k, (k < q0 * batch_size)%nat → c' !! k = c !! k) ∧
    (∀ k x, (q0 * batch_size ≤ k < (q0 + m) * batch_size)%nat →
       l !! k = Some x → c' !! k = Some (enriched_with (returned_item w l k) x)) ∧
    (∀ k, ((q0 + m) * batch_size ≤ k)%nat → c' !! k = l !! k).
Proof.
  revert q0 c. induction m as [|m IH]; intros q0 c Hanswers Hagree; simpl.
  - exists c. repeat split; try done.
    + intros k x Hk. lia.
    + intros k Hk. apply Hagree. lia.
  - destruct (Hanswers q0) as (items & Hreply & Hitems); [lia|].
    assert (drop (q0 * batch_size) c = drop (q0 * batch_size) l) as Hslice
      by by apply drop_agree.
    destruct (analyze_batch_in w c (q0 * batch_size) items) as (c1 & Hrun & Hin);
      [by rewrite Hslice | done |].
    rewrite Hrun. simpl.
    destruct (IH (S q0) c1) as (c' & Hrest & Hbefore & Hbatches & Hafter).
    { intros q Hq. apply Hanswers. lia. }
    { intros k Hk. rewrite (analyze_batch_other _ _ _ _ k Hrun).
      - apply Hagree. unfold batch_size in *. lia.
      - unfold batch_size in *. lia. }
    exists c'. split; [done|]. split; [|split].
    + intros k Hk. rewrite Hbefore by (unfold batch_size in *; lia).
      apply (analyze_batch_other _ _ _ _ k Hrun). lia.
    + intros k x Hk Hx.
      destruct (decide (k < S q0 * batch_size)%nat) as [Hfirst|Hlater].
      * rewrite Hbefore by done.
        replace k with (q0 * batch_size + (k - q0 * batch_size))%nat at 1 by lia.
        rewrite (Hin (k - q0 * batch_size)%nat x).
        -- unfold returned_item.
           rewrite (batch_of q0 k) by (unfold batch_size in *; lia).
           by rewrite Hreply.
        -- unfold batch_size in *. lia.
        -- replace (q0 * batch_size + (k - q0 * batch_size))%nat with k by lia.
           rewrite Hagree by lia. done.
      * apply Hbatches; [|done]. unfold batch_size in *. lia.
    + intros k Hk. apply Hafter. unfold batch_size in *. lia.
Qed.

(** The loop of [analyze_articles] as a whole: every article receives the
    item returned for its position. *)
Lemma analyze_batches_all (w : world) (l : list dict) :
  well_answered w l →
  analyze_batches w (batch_starts (length l)) l
  = Ok (imap (fun k x => enriched_with (returned_item w l k) x) l).
Proof.
  intros Hanswers. unfold batch_starts.
  destruct (analyze_batches_from w l
              ((length l + batch_size - 1) / batch_size) 0 l)
    as (c' & Hrun & _ & Hin & Hafter); [| done |].
  - intros q Hq. apply Hanswers. unfold batch_starts.
    apply list_elem_of_fmap. exists q. split; [done|]. apply elem_of_seq. lia.
  - rewrite Hrun. f_equal. apply list_eq. intros k.
    rewrite list_lookup_imap.
    destruct (l !! k) as [x|] eqn:Hx; simpl.
    + apply Hin; [|done]. apply lookup_lt_Some in Hx.
      unfold batch_size in *.
      pose proof (Nat.div_mod_eq (length l + 5 - 1) 5).
      pose proof (Nat.mod_upper_bound (length l + 5 - 1) 5 ltac:(lia)). lia.
    + apply lookup_ge_None in Hx. apply lookup_ge_None.
      apply analyze_batches_length in Hrun. lia.
Qed.
End AgentLoop.

Section AgentLoopRuns.
Import Agent Examples.

(** X1.  When every scoring call returns a list of objects, the batch loop
    returns, keeps the number of articles, and gives the article at each
    position the item returned for that position within its own batch:
    items are matched by position only, and a batch never touches the
    articles of another batch. *)
Theorem analysis_matches_by_position (w : world) (l : list dict) :
  well_answered w l →
  ∃ analysed, analyze_batches w (batch_starts (length l)) l = Ok analysed ∧
    length analysed = length l ∧
    ∀ k x, l !! k = Some x →
      analysed !! k = Some (enriched_with (returned_item w l k) x).
Proof.
  intros Hanswers. eexists. split; [by apply analyze_batches_all|].
  split; [apply length_imap|].
  intros k x Hx. by rewrite list_lookup_imap, Hx.
Qed.

Lemma world_wild_well_answered :
  well_answered world_wild (collected_articles (collect world_wild agent_a)).
Proof.
  intros i Hi. vm_compute in Hi. apply list_elem_of_singleton in Hi. subst i.
  eexists. split; [vm_compute; reflexivity|].
  repeat constructor; eexists; reflexivity.
Defined.

Lemma analysis_matches_by_position_run :
  ∃ analysed,
    analyze_batches world_wild (batch_starts 2)
      (collected_articles (collect world_wild agent_a)) = Ok analysed ∧
    (analysed !! 1%nat) ≫= (fun x : dict => x !! "relevance_score")
      = Some (VInt 250).
Proof.
  destruct (analysis_matches_by_position world_wild
              (collected_articles (collect world_wild agent_a))
              world_wild_well_answered)
    as (analysed & Hrun & _ & Hat).
  exists analysed. split; [exact Hrun|].
  rewrite (Hat 1%nat (default ∅ (collected_articles (collect world_wild agent_a) !! 1%nat)));
    [vm_compute; reflexivity | vm_compute; reflexivity].
Defined.
End AgentLoopRuns.

(* ===================================================================== *)
(** ** The agent: answers that stop the analysis                          *)
(* ===================================================================== *)

Section AgentCrashes.
Import Agent Examples.

Lemma batch_starts_cons (n : nat) :
  ∃ rest, batch_starts (S n) = 0%nat :: rest.
Proof.
  unfold batch_starts, batch_size.
  replace (S n + 5 - 1)%nat with (n + 1 * 5)%nat by lia.
  rewrite Nat.div_add by lia.
  replace (n / 5 + 1)%nat with (S (n / 5)) by lia. simpl. by eexists.
Qed.

(** X2.  An answer with status 200 and no candidate is not recovered: when
    the first batch receives one, [analyze_with_gemini] returns [None] and
    the analysis stage raises [TypeError], whatever the later answers
    are. *)
Theorem no_candidates_stops_analysis (w : world) (a : agent) :
  collected_articles a ≠ [] →
  forallb prompt_builds (take batch_size (collected_articles a)) = true →
  gemini w 0 = Answer 200 NoCandidates →
  analyze_with_gemini (gemini w 0) (take batch_size (collected_articles a))
    = VNull ∧
  analyze_articles w a = Raise TypeError.
Proof.
  intros Hsome Hprompt Hreply.
  assert (analyze_with_gemini (gemini w 0)
            (take batch_size (collected_articles a)) = VNull) as Hnone.
  { unfold analyze_with_gemini. by rewrite Hprompt, Hreply. }
  split; [done|]. unfold analyze_articles.
  destruct (collected_articles a) as [|x l] eqn:Hcollected; [done|].
  destruct (batch_starts_cons (length l)) as [rest Hstarts].
  simpl length. rewrite Hstarts. simpl analyze_batches.
  unfold analyze_batch. rewrite drop_0, Hnone. reflexivity.
Qed.

Lemma no_candidates_stops_analysis_run :
  collected_articles (collect world_blocked agent_a) ≠ [] ∧
  analyze_articles world_blocked (collect world_blocked agent_a)
    = Raise TypeError.
Proof.
  assert (collected_articles (collect world_blocked agent_a) ≠ []) as Hsome.
  { vm_compute. discriminate. }
  split; [exact Hsome|].
  apply (no_candidates_stops_analysis world_blocked _ Hsome).
  - vm_compute. reflexivity.
  - reflexivity.
Defined.

(** X3.  An item that is not an object is not recovered either: when the
    first item returned for the first batch is not a dict, the analysis
    stage raises [AttributeError]. *)
Theorem non_object_item_stops_analysis (w : world) (a : agent)
    (v : value) (items : list value) :
  collected_articles a ≠ [] →
  analyze_with_gemini (gemini w 0) (take batch_size (collected_articles a))
    = VList (v :: items) →
  (∀ d, v ≠ VDict d) →
  analyze_articles w a = Raise AttributeError.
Proof.
  intros Hsome Hreply Hv. unfold analyze_articles.
  destruct (collected_articles a) as [|x l] eqn:Hcollected; [done|].
  destruct (batch_starts_cons (length l)) as [rest Hstarts].
  simpl length. rewrite Hstarts. simpl analyze_batches.
  unfold analyze_batch. rewrite drop_0, Hreply. simpl.
  destruct v; try done. by destruct (Hv d).
Qed.

Lemma non_object_item_stops_analysis_run :
  collected_articles (collect world_numbers agent_a) ≠ [] ∧
  analyze_articles world_numbers (collect world_numbers agent_a)
    = Raise AttributeError.
Proof.
  assert (collected_articles (collect world_numbers agent_a) ≠ []) as Hsome.
  { vm_compute. discriminate. }
  split; [exact Hsome|].
  apply (non_object_item_stops_analysis world_numbers _ (VInt 80) [VInt 70] Hsome).
  - vm_compute. reflexivity.
  - intros d. discriminate.
Defined.
End AgentCrashes.

(* ===================================================================== *)
(** ** The agent: what collection stores                                  *)
(* ===================================================================== *)

Section AgentCollected.
Import Agent Examples.

Lemma length_append (s t : string) :
  String.length (s +:+ t) = (String.length s + String.length t)%nat.
Proof. induction s as [|c s IH]; simpl; [done | by rewrite IH]. Qed.

Lemma length_substring_le (n : nat) (s : string) :
  (String.length (substring 0 n s) ≤ n)%nat.
Proof.
  revert s. induction n as [|n IH]; intros [|c s]; simpl; try lia.
  specialize (IH s). lia.
Qed.

Lemma length_truncate (description : string) :
  (String.length (truncate description) ≤ 503)%nat.
Proof.
  unfold truncate. case_decide; [|lia].
  rewrite length_append. pose proof (length_substring_le 500 description).
  simpl. lia.
Qed.

(** A property of every contribution of every source is a property of
    every article collected, once it holds of the articles already there. *)
Lemma collect_Forall (P : dict → Prop) (w : world) (a : agent) :
  (∀ source, Forall P (feed_result w source)) →
  (∀ subreddit, Forall P (listing_result w subreddit)) →
  Forall P (collected_articles a) →
  Forall P (collected_articles (collect w a)).
Proof.
  intros Hfeeds Hlistings Hprior. rewrite collect_collected.
  repeat apply Forall_app_2; try done.
  - apply Forall_forall. intros x Hx.
    apply list_elem_of_join in Hx as (l & Hx & Hl).
    apply list_elem_of_fmap in Hl as (source & -> & _).
    specialize (Hfeeds source). rewrite Forall_forall in Hfeeds. by apply Hfeeds.
  - apply Forall_forall. intros x Hx.
    apply list_elem_of_join in Hx as (l & Hx & Hl).
    apply list_elem_of_fmap in Hl as (subreddit & -> & _).
    specialize (Hlistings subreddit). rewrite Forall_forall in Hlistings.
    by apply Hlistings.
Qed.

Lemma feed_result_Forall (P : dict → Prop) (w : world) (source : string * string) :
  (∀ e x, rss_article w source.2 e = Some x → P x) →
  Forall P (feed_result w source).
Proof.
  intros Hentry. unfold feed_result, process_rss_feed.
  destruct (fetch_url (rss w) source.1) as [[| |entries]|]; simpl;
    try by constructor.
  apply Forall_forall. intros x Hx.
  apply list_elem_of_omap in Hx as (e & _ & He). by eapply Hentry.
Qed.

Lemma listing_result_Forall (P : dict → Prop) (w : world) (subreddit : string) :
  (∀ children, Forall P (reddit_articles w subreddit children)) →
  Forall P (listing_result w subreddit).
Proof.
  intros Hposts. unfold listing_result, collect_subreddit.
  destruct (fetch_url (reddit w) _) as [[| |children]|]; simpl;
    try by constructor.
  apply Hposts.
Qed.

Lemma rss_article_shape (w : world) (name : string) (e : rss_entry) (x : dict) :
  rss_article w name e = Some x → collected_shape x.
Proof.
  destruct e as [|published_parsed updated_parsed title link summary description];
    simpl; [done|].
  case_match; [done|]. intros [= <-]. unfold collected_shape.
  repeat split; try (by eexists); try (by left).
  eexists. split; [reflexivity | apply length_truncate].
Qed.

Lemma length_selftext (selftext : option string) :
  (String.length
     match selftext with
     | Some (String c s) => substring 0 500 (String c s) +:+ "..."
     | _ => ""
     end ≤ 503)%nat.
Proof.
  destruct selftext as [[|c s]|]; simpl; try lia.
  change (String c (substring 0 499 s +:+ "..."))
    with (substring 0 500 (String c s) +:+ "...").
  rewrite length_append. pose proof (length_substring_le 500 (String c s)).
  simpl in *. lia.
Qed.

Lemma reddit_articles_shape (w : world) (subreddit : string)
    (children : list reddit_post) :
  Forall collected_shape (reddit_articles w subreddit children).
Proof.
  induction children as [|[|created_utc score title permalink selftext] rest IH];
    simpl; try by constructor.
  destruct (bool_decide (created_utc < now w - day)); [done|].
  destruct (bool_decide (default 0 score < 50)); [done|].
  destruct title as [title|]; [|by constructor].
  destruct permalink as [permalink|]; [|by constructor].
  constructor; [|done]. unfold collected_shape.
  repeat split; try (by eexists); try (by right).
  eexists. split; [reflexivity | apply length_selftext].
Qed.

(** X4.  Collection stores articles of one shape: title, url, source and
    description are strings, the description has at most 503 characters
    (500 and the marker), the publication date is set, the type is [rss]
    or [reddit], and no relevance score or category is present yet.  The
    shape is kept from one collection to the next. *)
Theorem collected_articles_shape (w : world) (a : agent) :
  Forall collected_shape (collected_articles a) →
  Forall collected_shape (collected_articles (collect w a)).
Proof.
  apply collect_Forall.
  - intros source. apply feed_result_Forall. intros e x. apply rss_article_shape.
  - intros subreddit. apply listing_result_Forall. apply reddit_articles_shape.
Qed.

Lemma collected_articles_shape_run :
  Forall collected_shape (collected_articles (collect world_down agent_a)).
Proof.
  apply (collected_articles_shape world_down agent_a). constructor.
Defined.
End AgentCollected.

Section AgentRecency.
Import Agent Examples.

Lemma rss_article_recent (w : world) (name : string) (e : rss_entry) (x : dict) :
  rss_article w name e = Some x → recent_and_popular w x.
Proof.
  destruct e as [|published_parsed updated_parsed title link summary description];
    simpl; [done|].
  set (pub_date := match published_parsed with
                   | Some t => Some t
                   | None => updated_parsed
                   end).
  destruct pub_date as [t|]; simpl.
  - case_bool_decide as Hold; [done|]. intros [= <-]. split; [|done].
    exists t. split; [reflexivity | lia].
  - intros [= <-]. split; [|done].
    exists (now w). split; [reflexivity | unfold day; lia].
Qed.

Lemma reddit_articles_recent (w : world) (subreddit : string)
    (children : list reddit_post) :
  Forall (recent_and_popular w) (reddit_articles w subreddit children).
Proof.
  induction children as [|[|created_utc score title permalink selftext] rest IH];
    simpl; try by constructor.
  case_bool_decide as Hold; [done|].
  case_bool_decide as Hlow; [done|].
  destruct title as [title|]; [|by constructor].
  destruct permalink as [permalink|]; [|by constructor].
  constructor; [|done]. split.
  - exists created_utc. split; [reflexivity | lia].
  - intros _. exists (default 0 score). split; [reflexivity | lia].
Qed.

(** X5.  Collection keeps only what is recent and, on Reddit, popular:
    every article it adds is dated no earlier than one day before the
    clock of the run (an entry without a date is dated by the clock), and
    every Reddit post it adds has a score of at least 50. *)
Theorem collected_articles_recent (w : world) (a : agent) :
  Forall (recent_and_popular w) (collected_articles a) →
  Forall (recent_and_popular w) (collected_articles (collect w a)).
Proof.
  apply collect_Forall.
  - intros source. apply feed_result_Forall. intros e x. apply rss_article_recent.
  - intros subreddit. apply listing_result_Forall. apply reddit_articles_recent.
Qed.

Lemma collected_articles_recent_run :
  Forall (recent_and_popular world_down)
    (collected_articles (collect world_down agent_a)).
Proof.
  apply (collected_articles_recent world_down agent_a). constructor.
Defined.

Lemma length_omap_le {A B} (f : A → option B) (l : list A) :
  (length (omap f l) ≤ length l)%nat.
Proof.
  induction l as [|x l IH]; csimpl; [lia|]. destruct (f x); csimpl; lia.
Qed.

Lemma length_feed_result (w : world) (source : string * string) :
  (length (feed_result w source) ≤ 10)%nat.
Proof.
  unfold feed_result, process_rss_feed.
  destruct (fetch_url (rss w) source.1) as [[| |entries]|]; simpl; try lia.
  pose proof (length_omap_le (rss_article w source.2) (take 10 entries)) as Hkept.
  rewrite length_take in Hkept. lia.
Qed.

Lemma length_feed_results (w : world) (sources : list (string * string)) :
  (length (mjoin (feed_result w <$> sources)) ≤ 10 * length sources)%nat.
Proof.
  induction sources as [|source sources IH]; [simpl; lia|].
  assert (mjoin (feed_result w <$> source :: sources)
          = feed_result w source ++ mjoin (feed_result w <$> sources)) as ->
    by reflexivity.
  rewrite length_app.
  change (length (source :: sources)) with (S (length sources)).
  pose proof (length_feed_result w source). lia.
Qed.

(** X6.  A feed contributes at most ten articles, so a collection over
    feeds alone adds at most ten articles per configured feed. *)
Theorem feeds_contribute_at_most_ten (w : world) (a : agent) :
  reddit_sources a = [] →
  (length (collected_articles (collect w a))
   ≤ length (collected_articles a) + 10 * length (website_sources a))%nat.
Proof.
  intros Hreddit. rewrite collect_collected, Hreddit.
  change (mjoin (listing_result w <$> [])) with (@nil dict).
  rewrite app_nil_r, length_app.
  pose proof (length_feed_results w (website_sources a)). lia.
Qed.

Lemma feeds_contribute_at_most_ten_run :
  (length (collected_articles (collect world_down agent_ba)) ≤ 0 + 10 * 2)%nat.
Proof.
  apply (feeds_contribute_at_most_ten world_down agent_ba). reflexivity.
Defined.
End AgentRecency.

(* ===================================================================== *)
(** ** The agent: bounds of the digest selection                          *)
(* ===================================================================== *)

Section AgentSelection.
Import Agent Examples.

Lemma take_nil_inv {A} (n : nat) (l : list A) :
  take (S n) l = [] → l = [].
Proof. by destruct l. Qed.

(** X7.  With numeric scores the digest selection returns at most 15
    articles, all taken from the collected list in its order; when some
    collected article scores at least 60, every selected article does. *)
Theorem top_articles_bounds (a : agent) :
  collected_articles a ≠ [] →
  Forall (fun x => numeric (relevance x)) (collected_articles a) →
  ∃ top, top_articles a = Ok (Some top) ∧
    (length top ≤ 15)%nat ∧
    top `sublist_of` collected_articles a ∧
    (Exists (fun x => 60 <= rank (relevance x))%Q (collected_articles a) →
     Forall (fun x => 60 <= rank (relevance x))%Q top).
Proof.
  intros Hsome Hnumeric. unfold top_articles.
  destruct (collected_articles a) as [|x0 l0] eqn:Hcollected; [done|].
  rewrite (comprehension_numeric _ Hnumeric). simpl.
  set (l := x0 :: l0) in *.
  set (kept := filter (fun x => 60 <= rank (relevance x))%Q l).
  destruct (take 15 kept) as [|y top] eqn:Htop.
  - exists (take 10 l). split; [done|]. split; [|split].
    + rewrite length_take. lia.
    + apply sublist_take.
    + intros Hexists. apply take_nil_inv in Htop.
      apply Exists_exists in Hexists as (x & Hx & Hscore).
      exfalso. eapply (filter_nil_not_elem_of _ l x); eauto.
  - exists (y :: top). split; [done|]. rewrite <- Htop. split; [|split].
    + rewrite length_take. lia.
    + etrans; [apply sublist_take|]. apply sublist_filter.
    + intros _. apply Forall_take. apply Forall_forall. intros x Hx.
      by apply list_elem_of_filter in Hx as [Hscore _].
Qed.

Lemma top_articles_bounds_run :
  ∃ top, top_articles (collect world_down agent_a) = Ok (Some top) ∧
         (length top ≤ 15)%nat.
Proof.
  destruct (top_articles_bounds (collect world_down agent_a))
    as (top & Hrun & Hlen & _).
  - vm_compute. discriminate.
  - repeat constructor; eexists; vm_compute; reflexivity.
  - exists top. split; [exact Hrun | exact Hlen].
Defined.
End AgentSelection.

(* ===================================================================== *)
(** ** The agent: what the analysis leaves alone                          *)
(* ===================================================================== *)

Section AgentFrame.
Import Agent Examples.

Lemma raw_update (analysis x : dict) :
  raw (update (analysis_fields analysis) x) = raw x.
Proof.
  unfold raw, update. simpl.
  by rewrite !(lookup_union_r (analysis_fields analysis)) by reflexivity.
Qed.

Lemma raw_alter (analysis : dict) (i : nat) (articles : list dict) :
  raw <$> alter (update (analysis_fields analysis)) i articles = raw <$> articles.
Proof.
  apply list_eq. intros k. rewrite !list_lookup_fmap.
  destruct (decide (i = k)) as [->|Hne].
  - rewrite list_lookup_alter_eq. destruct (articles !! k); simpl; [|done].
    by rewrite raw_update.
  - by rewrite list_lookup_alter_ne.
Qed.

Lemma match_analysis_raw (i n j : nat) (items : list value)
    (articles articles' : list dict) :
  match_analysis i n j items articles = Ok articles' →
  raw <$> articles' = raw <$> articles.
Proof.
  revert j articles. induction items as [|v items IH]; intros j articles; simpl.
  - by intros [= <-].
  - repeat case_decide; try apply IH.
    destruct v; try done.
    intros Hrest. apply IH in Hrest. by rewrite raw_alter in Hrest.
Qed.

Lemma analyze_batches_raw (w : world) (starts : list nat)
    (articles articles' : list dict) :
  analyze_batches w starts articles = Ok articles' →
  raw <$> articles' = raw <$> articles.
Proof.
  revert articles. induction starts as [|i starts IH]; intros articles; simpl.
  - by intros [= <-].
  - destruct (analyze_batch w articles i) as [l|] eqn:Hbatch; simpl; [|done].
    intros Hrest. apply IH in Hrest. rewrite Hrest. clear Hrest.
    unfold analyze_batch in Hbatch.
    destruct (iter _) as [items|]; simpl in Hbatch; [|done].
    by eapply match_analysis_raw.
Qed.

Lemma insert_desc_perm {A} (key : A → value) (x : A) (l l' : list A) :
  insert_desc key x l = Ok l' → l' ≡ₚ x :: l.
Proof.
  revert l'. induction l as [|y l IH]; intros l'; simpl.
  - by intros [= <-].
  - destruct (sort_lt (key x) (key y)) as [[]|]; simpl;
      [| by intros [= <-] | done].
    destruct (insert_desc key x l) as [s|]; simpl; [|done].
    intros [= <-]. rewrite (IH s eq_refl). apply perm_swap.
Qed.

Lemma sort_desc_perm {A} (key : A → value) (l l' : list A) :
  sort_desc key l = Ok l' → l' ≡ₚ l.
Proof.
  revert l'. induction l as [|x l IH]; intros l'; simpl.
  - by intros [= <-].
  - destruct (sort_desc key l) as [s|]; simpl; [|done].
    intros Hinsert. apply insert_desc_perm in Hinsert.
    by rewrite Hinsert, (IH s eq_refl).
Qed.

(** X8.  Whatever the scoring service answers, an analysis stage that
    returns has neither added nor dropped an article, and has left the
    fields written by collection (title, url, source, description,
    published, type, score) of every article as they were: the articles
    afterwards are those before, reordered, with these fields equal. *)
Theorem analysis_keeps_collected_fields (w : world) (a a' : agent) :
  analyze_articles w a = Ok a' →
  raw <$> collected_articles a' ≡ₚ raw <$> collected_articles a.
Proof.
  unfold analyze_articles.
  destruct (collected_articles a) as [|x l] eqn:Hcollected.
  - intros [= <-]. by rewrite Hcollected.
  - destruct (analyze_batches _ _ _) as [analysed|] eqn:Hbatches; simpl; [|done].
    destruct (sort_desc relevance analysed) as [sorted|] eqn:Hsort; simpl; [|done].
    destruct (sum _); simpl; [|done].
    destruct (truediv _ _); simpl; [|done].
    intros [= <-]. simpl.
    apply sort_desc_perm in Hsort. apply analyze_batches_raw in Hbatches.
    by rewrite Hsort, Hbatches.
Qed.

Lemma analysis_keeps_collected_fields_run :
  ∃ a', analyze_articles world_wild (collect world_wild agent_a) = Ok a' ∧
        raw <$> collected_articles a'
          ≡ₚ raw <$> collected_articles (collect world_wild agent_a).
Proof.
  eexists. split; [vm_compute; reflexivity|].
  apply (analysis_keeps_collected_fields world_wild).
  vm_compute. reflexivity.
Defined.
End AgentFrame.
